(** * Test Case Generator API: a shallow embedding of [backend/server.py]

    The development follows the module top to bottom: Python strings and
    their operations, the two prompt constructors, image ingestion, the
    completion streaming relay, the two POST handlers.

    Python [str] values are modelled by [string]: a character is a code
    point below 256, and [lower] is [str.lower] on such text (A-Z and the
    capital letters of the Latin-1 range).  Text with code points from 256
    on, where [str.lower] depends on the context of a letter, is outside the
    model; statements about letter case are made for ASCII text.  Byte
    strings ([bytes]) are [list byte].  Integers are [Z]. *)

From Stdlib Require Import String Ascii List ZArith NArith Bool Lia.
From Stdlib.Strings Require Import Byte.
From Stdlib Require Import DecimalString.
Import ListNotations.

Local Open Scope list_scope.
Local Open Scope string_scope.

(** ** Python strings *)

Module PyStr.

(** The line feed, written [\n] in the source. *)
Definition nl : string := String (ascii_of_nat 10) EmptyString.

(** Truthiness of a [str]: only the empty string is falsy. *)
Definition truthy (s : string) : bool :=
  match s with
  | EmptyString => false
  | String _ _ => true
  end.

(** Truthiness of an [Optional[str]]: [None] and [""] are falsy. *)
Definition truthy_opt (o : option string) : bool :=
  match o with
  | None => false
  | Some s => truthy s
  end.

(** [s.startswith(p)] *)
Fixpoint startswith (p s : string) : bool :=
  match p with
  | EmptyString => true
  | String a p' =>
      match s with
      | EmptyString => false
      | String b s' => if Ascii.eqb a b then startswith p' s' else false
      end
  end.

(** [p in s]: [p] occurs in [s] as a contiguous substring. *)
Fixpoint contains (p s : string) : bool :=
  if startswith p s then true
  else match s with
       | EmptyString => false
       | String _ s' => contains p s'
       end.

(** [s.endswith(p)], stated as a proposition. *)
Definition endswith (p s : string) : Prop := exists pre, s = pre ++ p.

(** [s.split(sep)] for a one-character separator: never the empty list. *)
Fixpoint split (sep : ascii) (s : string) : list string :=
  match s with
  | EmptyString => [EmptyString]
  | String c s' =>
      if Ascii.eqb c sep then EmptyString :: split sep s'
      else match split sep s' with
           | [] => [String c EmptyString]
           | h :: t => String c h :: t
           end
  end.

(** [c.lower()] on one character: the capitals are A-Z (65-90) and, in the
    Latin-1 range, 192-222 without the multiplication sign (215); each has
    its small letter 32 places further. *)
Definition lower_ascii (c : ascii) : ascii :=
  let n := N_of_ascii c in
  if (((65 <=? n) && (n <=? 90))
      || ((192 <=? n) && (n <=? 222) && negb (n =? 215)))%N
  then ascii_of_N (n + 32) else c.

(** [s.lower()] *)
Fixpoint lower (s : string) : string :=
  match s with
  | EmptyString => EmptyString
  | String c s' => String (lower_ascii c) (lower s')
  end.

(** [str(n)] for an [int]. *)
Definition str_int (n : Z) : string := NilZero.string_of_int (Z.to_int n).

End PyStr.

Import PyStr.

(** ** Language mode *)

Inductive LanguageMode : Type :=
| GHERKIN
| TRADITIONAL.

(** The value of the enumerant (the class derives from [str]). *)
Definition LanguageMode_value (m : LanguageMode) : string :=
  match m with
  | GHERKIN => "gherkin"
  | TRADITIONAL => "traditional"
  end.

(** ** Prompt construction *)

(** The text both constructors put before the free-text addition. *)
Definition additional_info_intro : string :=
  nl ++ nl ++ "Additional information about the test requirements: ".

Definition gherkin_template : string :=
  "
    You are a test automation specialist. Create Gherkin feature file test cases based on the images provided.
    The test cases should follow the Given-When-Then format and be comprehensive.
    
    Requirements:
    - Create a Feature description
    - Generate at least 3-5 Scenarios
    - Each Scenario should have clear Given, When, Then steps
    - Use appropriate tags where necessary
    - Include parameters and examples where appropriate
    - Format the output as a valid .feature file
    ".

Definition traditional_template : string :=
  "
    You are a test automation specialist. Create traditional test cases in a tabular format based on the images provided.
    
    Requirements:
    - Present test cases in a structured format with these sections for each test case:
      - Test Case ID (e.g., TC001)
      - Description: Brief description of what the test case verifies
      - Preconditions: What must be true before executing the test
      - Steps: Numbered list of actions to perform
      - Expected Results: What should happen when steps are executed
      - Priority: High, Medium, or Low importance
    - Generate at least 5-7 comprehensive test cases
    - Include test cases for different scenarios including edge cases
    - Assign appropriate priority to each test case
    ".

Definition get_gherkin_prompt (additional_info : option string) : string :=
  let prompt := gherkin_template in
  match additional_info with
  | Some info =>
      if truthy info then prompt ++ additional_info_intro ++ info else prompt
  | None => prompt
  end.

Definition get_traditional_prompt (additional_info : option string) : string :=
  let prompt := traditional_template in
  match additional_info with
  | Some info =>
      if truthy info then prompt ++ additional_info_intro ++ info else prompt
  | None => prompt
  end.

(** The selection made in [process_request]. *)
Definition prompt_content (language_mode : LanguageMode)
    (additional_info : option string) : string :=
  match language_mode with
  | GHERKIN => get_gherkin_prompt additional_info
  | TRADITIONAL => get_traditional_prompt additional_info
  end.

(** ** Exceptions, effects and the monad of handlers

    Every exception the module deals with derives from [Exception]; the
    framework's [HTTPException] carries a status code and a detail, any
    other exception is represented by its [str]. *)

Inductive Exn : Type :=
| HTTPException (status_code : Z) (detail : string)
| Exception (msg : string).

(** [str(e)]; an [HTTPException] prints as its status code and detail. *)
Definition str_exn (e : Exn) : string :=
  match e with
  | HTTPException status_code detail => str_int status_code ++ ": " ++ detail
  | Exception msg => msg
  end.

(** An uploaded file: its declared name, what [read()] does (raise, or
    return the contents) and what [seek(0)] does (raise, or succeed). *)
Record UploadFile : Type := {
  filename : option string;
  read : string + list byte;
  seek : option string
}.

(** One part of a message's content list. *)
Inductive ContentPart : Type :=
| TextPart (text : string)
| ImageUrlPart (url : string).

Record Message : Type := {
  role : string;
  content : list ContentPart
}.

(** A streamed completion chunk, as far as the relay inspects it.  [None]
    stands for a missing attribute ([hasattr] is false); the content of a
    delta may be present and [None]. *)
Record Delta : Type := { delta_content : option (option string) }.
Record Choice : Type := { choice_delta : option Delta }.
Record Chunk : Type := { chunk_choices : option (list Choice) }.

(** What [client.chat.completions.create] does: raise, or return a finite
    stream of chunks whose iteration may end in an exception. *)
Inductive CreateOutcome : Type :=
| CreateRaises (msg : string)
| CreateReturns (chunks : list Chunk) (failure : option string).

Definition Client : Type := string -> list Message -> bool -> CreateOutcome.

(** What [requests.post] does: raise, or return a response. *)
Inductive PostOutcome : Type :=
| PostRaises (msg : string)
| PostReturns (status_code : Z) (body : list byte).

Definition Requests : Type := string -> string -> PostOutcome.

(** The observable actions of a handler, in the order they happen. *)
Inductive Event : Type :=
| EvRead (file : UploadFile)
| EvSeek (file : UploadFile)
| EvLogError (msg : string)
| EvPrint (msg : string)
| EvPrintExc
| EvCreate (model : string) (messages : list Message) (stream : bool)
| EvPost (url : string) (result : string)
| EvYield (frame : string).

(** A computation emits events and either raises or returns. *)
Definition M (A : Type) : Type := (list Event * (Exn + A))%type.

Definition ret {A} (a : A) : M A := ([], inr a).

Definition bind {A B} (m : M A) (k : A -> M B) : M B :=
  match m with
  | (t, inl e) => (t, inl e)
  | (t, inr a) => let (t', r) := k a in (t ++ t', r)%list
  end.

Definition raise {A} (e : Exn) : M A := ([], inl e).

Definition emit (ev : Event) : M unit := ([ev], inr tt).

(** [try: m  except Exception as e: h e] *)
Definition try_except {A} (m : M A) (h : Exn -> M A) : M A :=
  match m with
  | (t, inl e) => let (t', r) := h e in (t ++ t', r)%list
  | (t, inr a) => (t, inr a)
  end.

Declare Scope monad_scope.
Delimit Scope monad_scope with monad.
Notation "x <- m ;; k" := (bind m (fun x => k))
  (at level 61, m at next level, right associativity) : monad_scope.
Notation "m ;; k" := (bind m (fun _ => k))
  (at level 61, right associativity) : monad_scope.
Local Open Scope monad_scope.

Definition trace {A} (m : M A) : list Event := fst m.
Definition outcome {A} (m : M A) : Exn + A := snd m.

(** The frames a generator yielded. *)
Fixpoint frames (t : list Event) : list string :=
  match t with
  | [] => []
  | EvYield f :: t' => f :: frames t'
  | _ :: t' => frames t'
  end.

(** The files whose [read()] was called. *)
Fixpoint reads (t : list Event) : list UploadFile :=
  match t with
  | [] => []
  | EvRead f :: t' => f :: reads t'
  | _ :: t' => reads t'
  end.

(** The message lists sent to the model. *)
Fixpoint upstream_calls (t : list Event) : list (list Message) :=
  match t with
  | [] => []
  | EvCreate _ messages _ :: t' => messages :: upstream_calls t'
  | _ :: t' => upstream_calls t'
  end.

(** The messages logged at error level. *)
Fixpoint logged (t : list Event) : list string :=
  match t with
  | [] => []
  | EvLogError msg :: t' => msg :: logged t'
  | _ :: t' => logged t'
  end.

(** ** Base64 *)

Definition b64_alphabet : string :=
  "ABCDEFGHIJKLMNOPQRSTUVWXYZabcdefghijklmnopqrstuvwxyz0123456789+/".

Definition b64_char (n : N) : ascii :=
  match String.get (N.to_nat n) b64_alphabet with
  | Some c => c
  | None => "="%char
  end.

(** [base64.b64encode(bs).decode("utf-8")] *)
Fixpoint b64encode (bs : list byte) : string :=
  match bs with
  | [] => EmptyString
  | [a] =>
      let n := N.shiftl (Byte.to_N a) 16 in
      String (b64_char (N.shiftr n 18))
        (String (b64_char (N.land (N.shiftr n 12) 63)) "==")
  | [a; b] =>
      let n := N.lor (N.shiftl (Byte.to_N a) 16) (N.shiftl (Byte.to_N b) 8) in
      String (b64_char (N.shiftr n 18))
        (String (b64_char (N.land (N.shiftr n 12) 63))
           (String (b64_char (N.land (N.shiftr n 6) 63)) "="))
  | a :: b :: c :: rest =>
      let n := N.lor (N.lor (N.shiftl (Byte.to_N a) 16)
                        (N.shiftl (Byte.to_N b) 8)) (Byte.to_N c) in
      String (b64_char (N.shiftr n 18))
        (String (b64_char (N.land (N.shiftr n 12) 63))
           (String (b64_char (N.land (N.shiftr n 6) 63))
              (String (b64_char (N.land n 63)) (b64encode rest))))
  end.

(** ** Image ingestion *)

(** [await file.read()], then the encoding, then [await file.seek(0)]. *)
Definition encode_image_to_base64 (file : UploadFile) : M string :=
  contents <- (emit (EvRead file) ;;
               match read file with
               | inl msg => raise (Exception msg)
               | inr bs => ret bs
               end) ;;
  let base64_encoded := b64encode contents in
  emit (EvSeek file) ;;
  match seek file with
  | Some msg => raise (Exception msg)
  | None => ret base64_encoded
  end.

(** [image.filename.split('.')[-1].lower()] on a filename that is a [str]. *)
Definition file_ext_of (name : string) : string :=
  lower (last (split "." name) EmptyString).

(** The MIME classification computed next to the descriptor. *)
Definition mime_type_of (file_ext : string) : string :=
  let mime_type := "image/" ++ file_ext in
  if String.eqb file_ext "jpg" then "image/jpeg" else mime_type.

(** The URL embedded in the descriptor. *)
Definition data_url (file_ext base64_image : string) : string :=
  "data:image/" ++ file_ext ++ ";base64," ++ base64_image.

(** The local variables of one round of the loop over the images. *)
Record ImageLocals : Type := {
  base64_image : string;
  file_ext : string;
  mime_type : string;
  descriptor : ContentPart
}.

(** How [image.filename] prints inside an f-string. *)
Definition str_filename (image : UploadFile) : string :=
  match filename image with
  | Some name => name
  | None => "None"
  end.

(** The body of the [try] of one round: a filename that is [None] has no
    [split]. *)
Definition image_try (image : UploadFile) : M ImageLocals :=
  base64_image <- encode_image_to_base64 image ;;
  file_ext <- match filename image with
              | Some name => ret (file_ext_of name)
              | None =>
                  raise (Exception
                           "'NoneType' object has no attribute 'split'")
              end ;;
  ret {| base64_image := base64_image;
         file_ext := file_ext;
         mime_type := mime_type_of file_ext;
         descriptor := ImageUrlPart (data_url file_ext base64_image) |}.

(** The [except] of one round. *)
Definition image_except (image : UploadFile) (e : Exn) : M ImageLocals :=
  emit (EvLogError ("Error processing image " ++ str_filename image
                    ++ ": " ++ str_exn e)) ;;
  raise (HTTPException 400 ("Error processing image: " ++ str_exn e)).

Definition image_round (image : UploadFile) : M ImageLocals :=
  try_except (image_try image) (image_except image).

(** The loop [for image in images], threading [image_contents]. *)
Fixpoint encode_images (images : list UploadFile)
    (image_contents : list ContentPart) : M (list ContentPart) :=
  match images with
  | [] => ret image_contents
  | image :: rest =>
      locals <- image_round image ;;
      encode_images rest (image_contents ++ [descriptor locals])%list
  end.

(** ** Completion streaming relay *)

Definition DONE : string := "data: [DONE]" ++ nl ++ nl.

Definition data_frame (text : string) : string := "data: " ++ text ++ nl ++ nl.

Definition error_frame (e : Exn) : string :=
  "data: Error: " ++ str_exn e ++ nl ++ nl.

(** The text a chunk carries, when all the guards of the relay pass:
    [choices] present and non-empty, its first element has a [delta], the
    delta has a [content], and the content is truthy. *)
Definition chunk_text (chunk : Chunk) : option string :=
  match chunk_choices chunk with
  | Some (choice :: _) =>
      match choice_delta choice with
      | Some delta =>
          match delta_content delta with
          | Some (Some text) => if truthy text then Some text else None
          | _ => None
          end
      | None => None
      end
  | _ => None
  end.

(** [for chunk in response] over the chunks that arrive. *)
Fixpoint relay (chunks : list Chunk) : M unit :=
  match chunks with
  | [] => ret tt
  | chunk :: rest =>
      match chunk_text chunk with
      | Some text => emit (EvYield (data_frame text))
      | None => ret tt
      end ;;
      relay rest
  end.

(** [messages[0]["content"].extend(image_contents)] *)
Definition extend_first (messages : list Message)
    (image_contents : list ContentPart) : list Message :=
  match messages with
  | [] => []
  | m :: ms =>
      {| role := role m; content := (content m ++ image_contents)%list |} :: ms
  end.

Definition build_messages (prompt : string)
    (image_contents : list ContentPart) : list Message :=
  let messages := [ {| role := "user"; content := [TextPart prompt] |} ] in
  match image_contents with
  | [] => messages
  | _ :: _ => extend_first messages image_contents
  end.

(** The [try] around the upstream call. *)
Definition stream_try (client : Client) (messages : list Message) : M unit :=
  emit (EvPrint "Creating completion...") ;;
  emit (EvCreate "gpt-4.1" messages true) ;;
  match client "gpt-4.1" messages true with
  | CreateRaises msg => raise (Exception msg)
  | CreateReturns chunks failure =>
      emit (EvPrint "Completion created successfully.") ;;
      relay chunks ;;
      match failure with
      | Some msg => raise (Exception msg)
      | None => emit (EvYield DONE)
      end
  end.

(** Its [except]. *)
Definition stream_except (e : Exn) : M unit :=
  emit (EvLogError ("Error calling OpenAI API: " ++ str_exn e)) ;;
  emit EvPrintExc ;;
  emit (EvYield (error_frame e)) ;;
  emit (EvYield DONE).

(** The generator [process_request], run to its end. *)
Definition process_request (OPENAI_API_KEY : option string) (client : Client)
    (images : list UploadFile) (language_mode : LanguageMode)
    (additional_info : option string) : M unit :=
  (if negb (truthy_opt OPENAI_API_KEY)
   then raise (HTTPException 500
                 "OpenAI API key not configured in environment")
   else ret tt) ;;
  image_contents <- encode_images images [] ;;
  let messages :=
    build_messages (prompt_content language_mode additional_info)
      image_contents in
  try_except (stream_try client messages) stream_except.

(** ** Handlers *)

Inductive Body : Type :=
| GeneratorBody (generator : M unit)
| BytesBody (bytes : list byte).

Record StreamingResponse : Type := {
  body : Body;
  media_type : string;
  headers : list (string * string)
}.

(** [POST /api/generate-test-cases].  The generator in the response has not
    run when the handler returns. *)
Definition create_test_caases (OPENAI_API_KEY : option string)
    (client : Client) (images : list UploadFile)
    (language_mode : LanguageMode) (additional_info : option string)
    : M StreamingResponse :=
  match images with
  | [] => raise (HTTPException 400 "At least one image is required")
  | _ :: _ =>
      ret {| body := GeneratorBody
                       (process_request OPENAI_API_KEY client images
                          language_mode additional_info);
             media_type := "text/event-stream";
             headers := [] |}
  end.

Definition excel_url : string := "https://192.168.3.90:8080/generate-excel".

(** [POST /generate-excel-proxy] *)
Definition generate_excel_proxy (requests_post : Requests) (content : string)
    : M StreamingResponse :=
  try_except
    (emit (EvPost excel_url content) ;;
     match requests_post excel_url content with
     | PostRaises msg => raise (Exception msg)
     | PostReturns status_code response_content =>
         if negb (Z.eqb status_code 200)
         then raise (HTTPException status_code "Failed to generate Excel")
         else ret {| body := BytesBody response_content;
                     media_type :=
                       "application/vnd.openxmlformats-officedocument.spreadsheetml.sheet";
                     headers :=
                       [("Content-Disposition",
                         "attachment; filename=test_cases.xlsx")] |}
     end)
    (fun e =>
       emit (EvLogError ("Error generating Excel: " ++ str_exn e)) ;;
       raise (HTTPException 500 "Failed to generate Excel file")).

(** ** Vocabulary of the statements *)

(** The fixed text of each mode. *)
Definition template_of (language_mode : LanguageMode) : string :=
  match language_mode with
  | GHERKIN => gherkin_template
  | TRADITIONAL => traditional_template
  end.

(** The free text a caller supplied; nothing when it is absent. *)
Definition supplied (additional_info : option string) : string :=
  match additional_info with
  | Some info => info
  | None => EmptyString
  end.

(** An upload whose name is a string and whose [read] and [seek] succeed. *)
Definition encodable (image : UploadFile) : bool :=
  match filename image, read image, seek image with
  | Some _, inr _, None => true
  | _, _, _ => false
  end.

(** The texts the relay forwards, in arrival order. *)
Fixpoint relayed_texts (chunks : list Chunk) : list string :=
  match chunks with
  | [] => []
  | chunk :: rest =>
      match chunk_text chunk with
      | Some text => text :: relayed_texts rest
      | None => relayed_texts rest
      end
  end.

(** A status code of the client-error class. *)
Definition is_4xx (status_code : Z) : Prop := (400 <= status_code < 500)%Z.

(** The events of a round that succeeds. *)
Definition round_events (image : UploadFile) : list Event :=
  [EvRead image; EvSeek image].

(** The part of [process_request] from the upstream call on. *)
Definition stream_phase (client : Client) (messages : list Message) : M unit :=
  try_except (stream_try client messages) stream_except.

(** ** Sample inputs *)

Definition sample_chunk (text : string) : Chunk :=
  {| chunk_choices :=
       Some [ {| choice_delta :=
                   Some {| delta_content := Some (Some text) |} |} ] |}.

Definition sample_client : Client :=
  fun _ _ _ =>
    CreateReturns
      [sample_chunk "Feature: Login"; {| chunk_choices := Some [] |};
       sample_chunk ""; sample_chunk "  Scenario: ok"]
      None.


Definition sample_png : UploadFile :=
  {| filename := Some "home.png"; read := inr [x4d; x61; x6e]; seek := None |}.

Definition sample_jpg : UploadFile :=
  {| filename := Some "cart.JPG"; read := inr [x4d]; seek := None |}.

Definition unreadable_png : UploadFile :=
  {| filename := Some "a.png"; read := inl "boom"; seek := None |}.

(** ** Start-up configuration and the API key dependency *)

(** The module-level guard: the credential is read from the environment and
    the module refuses to load when it is missing or empty. *)
Definition load_OPENAI_API_KEY (getenv : option string) : M (option string) :=
  let OPENAI_API_KEY := getenv in
  if negb (truthy_opt OPENAI_API_KEY)
  then raise (Exception "OPENAI_API_KEY environment variable is not set")
  else ret OPENAI_API_KEY.

(** [verify_api_key], a dependency no route uses. *)
Definition verify_api_key (api_key : option string) : M (option string) :=
  if negb (truthy_opt api_key)
  then raise (HTTPException 401 "API Key required")
  else ret api_key.

(** ** More of Python's strings *)

(** The characters at which [str.splitlines] breaks a line, among the 8-bit
    ones: LF, CR, VT, FF, FS, GS, RS and NEL. *)
Definition is_linebreak (c : ascii) : bool :=
  let n := N_of_ascii c in
  ((n =? 10) || (n =? 13) || (n =? 11) || (n =? 12) || (n =? 28) ||
   (n =? 29) || (n =? 30) || (n =? 133))%N.

Definition is_CR (c : ascii) : bool := (N_of_ascii c =? 13)%N.
Definition is_LF (c : ascii) : bool := (N_of_ascii c =? 10)%N.

(** [s.splitlines()]: the lines without their terminators; CR LF is one
    terminator; no empty last line after a final terminator. *)
Fixpoint splitlines (s : string) : list string :=
  match s with
  | EmptyString => []
  | String c s' =>
      if is_linebreak c then
        EmptyString ::
        match s' with
        | String d s'' =>
            if is_CR c && is_LF d then splitlines s'' else splitlines s'
        | EmptyString => splitlines s'
        end
      else
        match splitlines s' with
        | [] => [String c EmptyString]
        | h :: t => String c h :: t
        end
  end.

(** [sep.join(parts)] *)
Fixpoint join (sep : string) (parts : list string) : string :=
  match parts with
  | [] => EmptyString
  | [p] => p
  | p :: rest => p ++ sep ++ join sep rest
  end.

(** [s[:n]] and [s[n:]] for a natural [n]. *)
Fixpoint take (n : nat) (s : string) : string :=
  match n, s with
  | S n', String c s' => String c (take n' s')
  | _, _ => EmptyString
  end.

Fixpoint drop (n : nat) (s : string) : string :=
  match n, s with
  | S n', String _ s' => drop n' s'
  | _, _ => s
  end.

Fixpoint nuls (n : nat) : string :=
  match n with
  | O => EmptyString
  | S n' => String zero (nuls n')
  end.

(** ** The in-memory text buffer [io.StringIO] *)

Module StringIO.

Record t : Type := { value : string; pos : nat }.

Definition new : t := {| value := EmptyString; pos := 0 |}.

(** [write] overwrites from the current position, padding with NUL when
    the position is past the end, and leaves the position after what it
    wrote. *)
Definition write (b : t) (s : string) : t :=
  let padded := value b ++ nuls (pos b - String.length (value b)) in
  {| value := take (pos b) padded ++ s
              ++ drop (pos b + String.length s) padded;
     pos := pos b + String.length s |}.

Definition seek (b : t) (offset : nat) : t :=
  {| value := value b; pos := offset |}.

(** [read()] returns what lies after the position and moves to the end. *)
Definition read (b : t) : string * t :=
  (drop (pos b) (value b),
   {| value := value b;
      pos := Nat.max (pos b) (String.length (value b)) |}).

Definition getvalue (b : t) : string := value b.

End StringIO.

(** ** The class [ResponseStream] *)

Module ResponseStream.

Record t : Type := { buffer : StringIO.t; content_id : string }.

(** [__init__]; the argument is the text of the fresh UUID. *)
Definition init (uuid4 : string) : t :=
  {| buffer := StringIO.new; content_id := uuid4 |}.

Definition write (self : t) (content : string) : t :=
  {| buffer := StringIO.write (buffer self) content;
     content_id := content_id self |}.

Definition read (self : t) : string * t :=
  let (text, b) := StringIO.read (StringIO.seek (buffer self) 0) in
  (text, {| buffer := b; content_id := content_id self |}).

Fixpoint yield_lines (lines : list string) : M unit :=
  match lines with
  | [] => ret tt
  | line :: rest => emit (EvYield (data_frame line)) ;; yield_lines rest
  end.

(** [__iter__], run to its end. *)
Definition iter (self : t) : M unit :=
  yield_lines (splitlines (StringIO.getvalue (buffer self))) ;;
  emit (EvYield DONE).

End ResponseStream.

(** A call made on a [ResponseStream] by its user. *)
Inductive Call : Type :=
| CallWrite (content : string)
| CallRead.

(** The stream after a sequence of calls. *)
Fixpoint after_calls (self : ResponseStream.t) (calls : list Call)
    : ResponseStream.t :=
  match calls with
  | [] => self
  | CallWrite content :: rest =>
      after_calls (ResponseStream.write self content) rest
  | CallRead :: rest => after_calls (snd (ResponseStream.read self)) rest
  end.

(** Everything the calls wrote, in order. *)
Fixpoint written (calls : list Call) : string :=
  match calls with
  | [] => EmptyString
  | CallWrite content :: rest => content ++ written rest
  | CallRead :: rest => written rest
  end.

(** ** Reading base64 back *)

(** The position of a character in the alphabet; 64 when it is not there. *)
Fixpoint index_in (c : ascii) (s : string) : N :=
  match s with
  | EmptyString => 0
  | String d s' => if Ascii.eqb c d then 0 else N.succ (index_in c s')
  end.

Definition b64_index (c : ascii) : N := index_in c b64_alphabet.

Definition byte_of_N (n : N) : byte :=
  match Byte.of_N n with
  | Some b => b
  | None => x00
  end.

(** The inverse of [b64encode] on its image. *)
Fixpoint b64decode (s : string) : list byte :=
  match s with
  | String c0 (String c1 (String c2 (String c3 rest))) =>
      let i0 := b64_index c0 in
      let i1 := b64_index c1 in
      if Ascii.eqb c2 "=" then
        [byte_of_N (i0 * 4 + i1 / 16)]
      else
        let i2 := b64_index c2 in
        if Ascii.eqb c3 "=" then
          [byte_of_N (i0 * 4 + i1 / 16);
           byte_of_N ((i1 mod 16) * 16 + i2 / 4)]
        else
          let i3 := b64_index c3 in
          byte_of_N (i0 * 4 + i1 / 16)
          :: byte_of_N ((i1 mod 16) * 16 + i2 / 4)
          :: byte_of_N ((i2 mod 4) * 64 + i3)
          :: b64decode rest
  | _ => []
  end.

(** The raw text of a chunk: the content of its first choice's delta, and
    nothing when a guard of the relay fails. *)
Definition chunk_raw_text (chunk : Chunk) : string :=
  match chunk_choices chunk with
  | Some (choice :: _) =>
      match choice_delta choice with
      | Some delta =>
          match delta_content delta with
          | Some (Some text) => text
          | _ => EmptyString
          end
      | None => EmptyString
      end
  | _ => EmptyString
  end.

(** The payload of a frame: what lies between [data: ] and the blank line. *)
Definition frame_payload (frame : string) : string :=
  take (String.length frame - 8) (drop 6 frame).

(** The requests posted to the Excel service: URL and content. *)
Fixpoint posts (t : list Event) : list (string * string) :=
  match t with
  | [] => []
  | EvPost url result :: t' => (url, result) :: posts t'
  | _ :: t' => posts t'
  end.

(** The files rewound with [seek(0)]. *)
Fixpoint seeks (t : list Event) : list UploadFile :=
  match t with
  | [] => []
  | EvSeek f :: t' => f :: seeks t'
  | _ :: t' => seeks t'
  end.

(** Why a round fails, when it does: the text of the exception caught. *)
Definition round_error (image : UploadFile) : string :=
  match read image, seek image, filename image with
  | inl msg, _, _ => msg
  | inr _, Some msg, _ => msg
  | inr _, None, _ => "'NoneType' object has no attribute 'split'"
  end.

(** The outgoing message for a prompt and image descriptors. *)
Definition user_message (prompt : string) (image_contents : list ContentPart)
    : Message :=
  {| role := "user"; content := TextPart prompt :: image_contents |}.

(** A frame as a client expects it: [data: ] first, a blank line last. *)
Definition well_formed_frame (frame : string) : Prop :=
  startswith "data: " frame = true /\ endswith (nl ++ nl) frame.

(** Concatenation of a list of texts. *)
Definition concat_texts (texts : list string) : string :=
  fold_right append EmptyString texts.

(** A text of ASCII characters only. *)
Definition is_ascii (text : string) : bool :=
  forallb (fun c => (N_of_ascii c <? 128)%N) (list_ascii_of_string text).

(** A text without any line break. *)
Definition single_line (text : string) : bool :=
  forallb (fun c => negb (is_linebreak c)) (list_ascii_of_string text).

Definition unseekable_png : UploadFile :=
  {| filename := Some "b.png"; read := inr [x4d]; seek := Some "closed file" |}.

Definition nameless_upload : UploadFile :=
  {| filename := None; read := inr [x4d]; seek := None |}.


Definition refusing_client : Client :=
  fun _ _ _ => CreateRaises "invalid api key".

(** * Unit tests of the embedding *)

Example b64encode_examples :
  b64encode [x4d; x61; x6e] = "TWFu" /\ b64encode [x4d; x61] = "TWE=" /\
  b64encode [x4d] = "TQ==" /\ b64encode [xff; xfe; xfd; x00] = "//79AA==".
Proof. repeat split; vm_compute; reflexivity. Qed.

Example template_lengths :
  String.length gherkin_template = 504 /\
  String.length traditional_template = 755 /\
  startswith (nl ++ "    You are a test automation specialist.")
    gherkin_template = true /\
  startswith (nl ++ "    You are a test automation specialist.")
    traditional_template = true.
Proof. repeat split; vm_compute; reflexivity. Qed.

Example relay_example :
  frames (trace (process_request (Some "sk-test") sample_client [sample_png]
                   GHERKIN None))
  = [data_frame "Feature: Login"; data_frame "  Scenario: ok"; DONE].
Proof. vm_compute. reflexivity. Qed.

Example lower_examples :
  lower "Shot.PNG" = "shot.png" /\
  lower (String (ascii_of_nat 201) "PS") = String (ascii_of_nat 233) "ps" /\
  lower (String (ascii_of_nat 215) (String (ascii_of_nat 223) ""))
  = String (ascii_of_nat 215) (String (ascii_of_nat 223) "").
Proof. repeat split; vm_compute; reflexivity. Qed.

Example file_ext_of_examples :
  file_ext_of "shot.PNG" = "png" /\ file_ext_of "a.b.Jpg" = "jpg" /\
  file_ext_of "README" = "readme" /\ file_ext_of "x." = "".
Proof. repeat split; vm_compute; reflexivity. Qed.

(** * Prompt construction *)

(** ** Substrings *)

Lemma append_assoc (a b c : string) : (a ++ b) ++ c = a ++ (b ++ c).
Proof. induction a as [|x a IH]; simpl; [reflexivity | now rewrite IH]. Qed.

Lemma length_append (a b : string) :
  String.length (a ++ b) = String.length a + String.length b.
Proof. induction a as [|x a IH]; simpl; [reflexivity | now rewrite IH]. Qed.

Lemma startswith_app (p a b : string) :
  startswith p a = true -> startswith p (a ++ b) = true.
Proof.
  revert a; induction p as [|c p IH]; intros a H; [reflexivity|].
  destruct a as [|d a]; simpl in *; [discriminate|].
  destruct (Ascii.eqb c d); [now apply IH | discriminate].
Qed.

Lemma contains_app_l (p a b : string) :
  contains p a = true -> contains p (a ++ b) = true.
Proof.
  induction a as [|d a IH]; simpl; intros H.
  - destruct (startswith p "") eqn:E; [|discriminate].
    destruct p; [|discriminate E].
    destruct b; reflexivity.
  - destruct (startswith p (String d a)) eqn:E.
    + change (String d (a ++ b)) with (String d a ++ b).
      now rewrite (startswith_app _ _ b E).
    + destruct (startswith p (String d (a ++ b))); [reflexivity|].
      now apply IH.
Qed.

Lemma startswith_spec (p s : string) :
  startswith p s = true <-> exists post, s = p ++ post.
Proof.
  revert s; induction p as [|c p IH]; intros s; simpl.
  - split; [intros _; now exists s | reflexivity].
  - destruct s as [|d s].
    + split; [discriminate | intros [post H]; discriminate H].
    + destruct (Ascii.eqb_spec c d) as [->|N].
      * rewrite IH. split; intros [post H]; exists post.
        -- now rewrite H.
        -- now injection H.
      * split; [discriminate | intros [post H]].
        injection H as H1 _. now elim N.
Qed.

(** [contains] decides the occurrence of [p] inside [s]. *)
Lemma contains_spec (p s : string) :
  contains p s = true <-> exists pre post, s = pre ++ p ++ post.
Proof.
  induction s as [|d s IH].
  - simpl. destruct (startswith p "") eqn:E.
    + apply startswith_spec in E as [post E].
      split; [intros _; now exists "", post | reflexivity].
    + split; [discriminate | intros [pre [post H]]].
      destruct pre; simpl in H.
      * assert (startswith p "" = true)
          by (apply startswith_spec; now exists post).
        congruence.
      * discriminate H.
  - simpl. destruct (startswith p (String d s)) eqn:E.
    + apply startswith_spec in E as [post E].
      split; [intros _; now exists "", post | reflexivity].
    + rewrite IH. split.
      * intros [pre [post H]]. exists (String d pre), post.
        now rewrite H.
      * intros [pre [post H]]. destruct pre as [|c pre]; simpl in H.
        -- assert (startswith p (String d s) = true)
             by (apply startswith_spec; now exists post).
           congruence.
        -- injection H as _ H. now exists pre, post.
Qed.

(** Where a marker cannot straddle the junction of the fixed text and the
    free text, its presence in the prompt is its presence in the free text. *)
Lemma gherkin_test_case_id (info : string) :
  contains "Test Case ID" (gherkin_template ++ additional_info_intro ++ info)
  = contains "Test Case ID" info.
Proof. vm_compute. reflexivity. Qed.

Lemma traditional_feature (info : string) :
  contains "Feature" (traditional_template ++ additional_info_intro ++ info)
  = contains "Feature" info.
Proof. vm_compute. reflexivity. Qed.

Lemma prompt_content_cases (language_mode : LanguageMode)
    (additional_info : option string) :
  prompt_content language_mode additional_info =
  if truthy_opt additional_info
  then template_of language_mode ++ additional_info_intro
       ++ supplied additional_info
  else template_of language_mode.
Proof.
  destruct language_mode, additional_info as [info|]; simpl;
    unfold get_gherkin_prompt, get_traditional_prompt;
    try destruct (truthy info); reflexivity.
Qed.

Lemma gherkin_has_feature (additional_info : option string) :
  contains "Feature" (prompt_content GHERKIN additional_info) = true.
Proof.
  rewrite prompt_content_cases. destruct (truthy_opt additional_info).
  - apply contains_app_l. vm_compute. reflexivity.
  - vm_compute. reflexivity.
Qed.

Lemma traditional_has_test_case_id (additional_info : option string) :
  contains "Test Case ID" (prompt_content TRADITIONAL additional_info) = true.
Proof.
  rewrite prompt_content_cases. destruct (truthy_opt additional_info).
  - apply contains_app_l. vm_compute. reflexivity.
  - vm_compute. reflexivity.
Qed.

(** C5, as stated, fails: the free text is appended verbatim, so a caller
    who writes the traditional marker into it gets a Gherkin prompt that
    contains "Test Case ID". *)
Lemma gherkin_prompt_may_contain_test_case_id :
  ~ (forall additional_info : option string,
        contains "Feature" (prompt_content GHERKIN additional_info) = true /\
        contains "Test Case ID" (prompt_content GHERKIN additional_info)
        = false /\
        contains "Test Case ID" (prompt_content TRADITIONAL additional_info)
        = true /\
        contains "Feature" (prompt_content TRADITIONAL additional_info)
        = false).
Proof.
  intros H. destruct (H (Some "Test Case ID")) as (_ & H2 & _).
  vm_compute in H2. discriminate H2.
Qed.

(** C5, amended: for every optional free-text addition that itself contains
    neither "Feature" nor "Test Case ID" (an absent or empty one among
    them), the Gherkin prompt contains "Feature" and not "Test Case ID", and
    the traditional prompt contains "Test Case ID" and not "Feature". *)
Theorem prompts_keep_their_markers (additional_info : option string)
    (HF : contains "Feature" (supplied additional_info) = false)
    (HT : contains "Test Case ID" (supplied additional_info) = false) :
  contains "Feature" (prompt_content GHERKIN additional_info) = true /\
  contains "Test Case ID" (prompt_content GHERKIN additional_info) = false /\
  contains "Test Case ID" (prompt_content TRADITIONAL additional_info) = true /\
  contains "Feature" (prompt_content TRADITIONAL additional_info) = false.
Proof.
  split; [apply gherkin_has_feature|].
  split; [|split; [apply traditional_has_test_case_id|]].
  - rewrite prompt_content_cases. destruct (truthy_opt additional_info).
    + simpl template_of. now rewrite gherkin_test_case_id.
    + vm_compute. reflexivity.
  - rewrite prompt_content_cases. destruct (truthy_opt additional_info).
    + simpl template_of. now rewrite traditional_feature.
    + vm_compute. reflexivity.
Qed.

Lemma prompts_keep_their_markers_witness :
  contains "Feature" (prompt_content GHERKIN (Some "login page")) = true /\
  contains "Test Case ID" (prompt_content GHERKIN (Some "login page"))
  = false /\
  contains "Test Case ID" (prompt_content TRADITIONAL (Some "login page"))
  = true /\
  contains "Feature" (prompt_content TRADITIONAL (Some "login page")) = false.
Proof.
  apply (prompts_keep_their_markers (Some "login page")); reflexivity.
Defined.

(** C7: for every mode and every non-empty free text X, the prompt is the
    mode's template, the fixed introduction and then X itself, unchanged and
    whole; so the prompt ends with X and loses none of its characters. *)
Theorem additional_info_appended_verbatim (language_mode : LanguageMode)
    (X : string) (HX : X <> EmptyString) :
  prompt_content language_mode (Some X)
  = template_of language_mode ++ additional_info_intro ++ X /\
  endswith X (prompt_content language_mode (Some X)) /\
  endswith (additional_info_intro ++ X) (prompt_content language_mode (Some X)) /\
  String.length (prompt_content language_mode (Some X))
  = String.length (template_of language_mode)
    + String.length additional_info_intro + String.length X.
Proof.
  assert (E : prompt_content language_mode (Some X)
              = template_of language_mode ++ additional_info_intro ++ X).
  { rewrite prompt_content_cases. simpl.
    destruct X; [now elim HX | reflexivity]. }
  rewrite E. split; [reflexivity|]. split; [|split].
  - exists (template_of language_mode ++ additional_info_intro).
    now rewrite append_assoc.
  - now exists (template_of language_mode).
  - rewrite !length_append. lia.
Qed.

Lemma additional_info_appended_verbatim_witness :
  prompt_content TRADITIONAL (Some "<b>X</b>")
  = traditional_template ++ additional_info_intro ++ "<b>X</b>" /\
  endswith "<b>X</b>" (prompt_content TRADITIONAL (Some "<b>X</b>")).
Proof.
  destruct (additional_info_appended_verbatim TRADITIONAL "<b>X</b>")
    as (H1 & H2 & _); [discriminate|].
  split; [exact H1 | exact H2].
Defined.

(** C9: with the empty string as free text both constructors return the
    bare template, exactly as with no free text at all, and the result has
    no "Additional information" suffix. *)
Theorem empty_additional_info_is_ignored :
  get_gherkin_prompt (Some EmptyString) = gherkin_template /\
  get_traditional_prompt (Some EmptyString) = traditional_template /\
  get_gherkin_prompt (Some EmptyString) = get_gherkin_prompt None /\
  get_traditional_prompt (Some EmptyString) = get_traditional_prompt None /\
  contains "Additional information" (get_gherkin_prompt (Some EmptyString))
  = false /\
  contains "Additional information"
    (get_traditional_prompt (Some EmptyString)) = false.
Proof. repeat split; vm_compute; reflexivity. Qed.

(** * Image ingestion *)

Lemma split_not_nil (sep : ascii) (s : string) : split sep s <> [].
Proof.
  destruct s as [|c s]; simpl; [discriminate|].
  destruct (Ascii.eqb c sep); [discriminate|].
  destruct (split sep s); discriminate.
Qed.

(** A name without the separator is its own single segment. *)
Lemma split_without_sep (name : string) :
  contains "." name = false -> split "." name = [name].
Proof.
  induction name as [|c name IH]; [reflexivity|].
  cbn [contains startswith split].
  destruct (Ascii.eqb_spec "."%char c) as [<-|N]; [discriminate|].
  intros H. destruct (Ascii.eqb_spec c "."%char) as [->|_]; [now elim N|].
  now rewrite (IH H).
Qed.

(** The last segment only depends on what follows the last separator seen. *)
Lemma split_app_sep (sep : ascii) (a b : string) :
  exists h t, split sep (a ++ String sep b) = h :: t /\ t <> [] /\
              last t EmptyString = last (split sep b) EmptyString.
Proof.
  induction a as [|c a (h & t & E & Ht & L)]; simpl.
  - rewrite Ascii.eqb_refl. exists EmptyString, (split sep b).
    split; [reflexivity|]. split; [apply split_not_nil | reflexivity].
  - rewrite E. destruct (Ascii.eqb c sep).
    + exists EmptyString, (h :: t). split; [reflexivity|].
      split; [discriminate|]. rewrite <- L.
      destruct t; [now elim Ht | reflexivity].
    + exists (String c h), t. now repeat split.
Qed.

Lemma file_ext_of_app (stem ext : string) :
  file_ext_of (stem ++ String "." ext) = file_ext_of ext.
Proof.
  unfold file_ext_of.
  destruct (split_app_sep "." stem ext) as (h & t & E & Ht & L).
  rewrite E, <- L. destruct t; [now elim Ht | reflexivity].
Qed.

(** Any name ending in [.jpg] has the extension [jpg], in any letter case
    of the three letters recognised by [lower]. *)
Lemma file_ext_of_dot_jpg (stem : string) :
  file_ext_of (stem ++ ".jpg") = "jpg" /\ file_ext_of (stem ++ ".JPG") = "jpg".
Proof. split; apply (file_ext_of_app stem). Qed.

Lemma file_ext_of_without_dot (name : string) :
  contains "." name = false -> file_ext_of name = lower name.
Proof. intros H. unfold file_ext_of. now rewrite (split_without_sep _ H). Qed.

(** One round of the loop on an upload that can be read. *)
Lemma image_round_ok (image : UploadFile) (name : string) (bs : list byte) :
  filename image = Some name -> read image = inr bs -> seek image = None ->
  image_round image
  = ([EvRead image; EvSeek image],
     inr {| base64_image := b64encode bs;
            file_ext := file_ext_of name;
            mime_type := mime_type_of (file_ext_of name);
            descriptor :=
              ImageUrlPart (data_url (file_ext_of name) (b64encode bs)) |}).
Proof.
  intros Hn Hr Hs.
  unfold image_round, image_try, encode_image_to_base64.
  rewrite Hn, Hr, Hs. reflexivity.
Qed.

Lemma encodable_inv (image : UploadFile) :
  encodable image = true ->
  exists name bs,
    filename image = Some name /\ read image = inr bs /\ seek image = None.
Proof.
  unfold encodable.
  destruct (filename image) as [name|]; [|discriminate].
  destruct (read image) as [msg|bs]; [discriminate|].
  destruct (seek image); [discriminate|]. intros _. now exists name, bs.
Qed.

(** C4: an upload whose extension is [jpg] gets a descriptor whose URL
    starts with [data:image/jpg;base64,] (the raw extension), while the MIME
    classification computed in the same round is [image/jpeg]. *)
Theorem jpg_url_raw_and_mime_normalized (image : UploadFile) (name : string)
    (bs : list byte)
    (Hname : filename image = Some name)
    (Hext : file_ext_of name = "jpg")
    (Hread : read image = inr bs)
    (Hseek : seek image = None) :
  exists locals url,
    outcome (image_round image) = inr locals /\
    descriptor locals = ImageUrlPart url /\
    url = "data:image/jpg;base64," ++ b64encode bs /\
    startswith "data:image/jpg;base64," url = true /\
    mime_type locals = "image/jpeg".
Proof.
  rewrite (image_round_ok image name bs Hname Hread Hseek), Hext.
  eexists. eexists. split; [reflexivity|]. simpl.
  split; [reflexivity|]. split; [reflexivity|]. split; reflexivity.
Qed.

Lemma jpg_url_raw_and_mime_normalized_witness :
  let image := {| filename := Some "Login.Screen.JPG";
                  read := inr [x4d; x61]; seek := None |} in
  exists locals url,
    outcome (image_round image) = inr locals /\
    descriptor locals = ImageUrlPart url /\
    url = "data:image/jpg;base64,TWE=" /\
    startswith "data:image/jpg;base64," url = true /\
    mime_type locals = "image/jpeg".
Proof.
  intros image.
  apply (jpg_url_raw_and_mime_normalized image "Login.Screen.JPG" [x4d; x61]);
    reflexivity.
Defined.

(** C10, as stated, fails on the MIME classification: the name [jpg] has no
    dot, its extension is [jpg], and the classification is [image/jpeg], not
    [image/jpg]. *)
Lemma dotless_jpg_mime_is_jpeg :
  ~ (forall (image : UploadFile) (name : string) (bs : list byte),
        filename image = Some name -> contains "." name = false ->
        read image = inr bs -> seek image = None ->
        exists locals,
          outcome (image_round image) = inr locals /\
          descriptor locals
          = ImageUrlPart ("data:image/" ++ lower name ++ ";base64,"
                          ++ b64encode bs) /\
          mime_type locals = "image/" ++ lower name).
Proof.
  intros H.
  destruct (H {| filename := Some "jpg"; read := inr [x4d]; seek := None |}
              "jpg" [x4d] eq_refl eq_refl eq_refl eq_refl)
    as (locals & Ho & _ & Hm).
  vm_compute in Ho. injection Ho as <-. vm_compute in Hm. discriminate Hm.
Qed.

(** C10, amended: for every readable upload whose filename contains no dot,
    ingestion succeeds, the inferred extension is the whole filename in
    lower case, the descriptor URL is [data:image/<that>;base64,...], and
    the MIME classification is [image/<that>] unless the lowercased filename
    is [jpg], in which case it is [image/jpeg]. *)
Theorem dotless_filename_is_its_own_extension (image : UploadFile)
    (name : string) (bs : list byte)
    (Hname : filename image = Some name)
    (Hdot : contains "." name = false)
    (Hread : read image = inr bs)
    (Hseek : seek image = None) :
  exists locals,
    outcome (image_round image) = inr locals /\
    file_ext locals = lower name /\
    descriptor locals
    = ImageUrlPart ("data:image/" ++ lower name ++ ";base64,"
                    ++ b64encode bs) /\
    mime_type locals
    = if String.eqb (lower name) "jpg" then "image/jpeg"
      else "image/" ++ lower name.
Proof.
  rewrite (image_round_ok image name bs Hname Hread Hseek).
  rewrite (file_ext_of_without_dot name Hdot).
  eexists. split; [reflexivity|]. simpl. repeat split.
Qed.

Lemma dotless_filename_is_its_own_extension_witness :
  let image := {| filename := Some "Mockup"; read := inr [x4d; x61; x6e];
                  seek := None |} in
  exists locals,
    outcome (image_round image) = inr locals /\
    file_ext locals = "mockup" /\
    descriptor locals = ImageUrlPart "data:image/mockup;base64,TWFu" /\
    mime_type locals = "image/mockup".
Proof.
  intros image.
  apply (dotless_filename_is_its_own_extension image "Mockup" [x4d; x61; x6e]);
    reflexivity.
Defined.

(** * The monad and the projections of a trace *)

Lemma bind_ret_l {A B} (a : A) (k : A -> M B) : bind (ret a) k = k a.
Proof. unfold bind, ret. now destruct (k a). Qed.

Lemma outcome_bind {A B} (m : M A) (k : A -> M B) :
  outcome (bind m k)
  = match outcome m with
    | inl e => inl e
    | inr a => outcome (k a)
    end.
Proof. destruct m as [t [e|a]]; simpl; [reflexivity | now destruct (k a)]. Qed.

Lemma trace_bind {A B} (m : M A) (k : A -> M B) :
  trace (bind m k)
  = match outcome m with
    | inl _ => trace m
    | inr a => (trace m ++ trace (k a))%list
    end.
Proof. destruct m as [t [e|a]]; simpl; [reflexivity | now destruct (k a)]. Qed.

Lemma frames_app (t u : list Event) :
  frames (t ++ u) = (frames t ++ frames u)%list.
Proof.
  induction t as [|[] t IH]; simpl; try assumption; [reflexivity|].
  now rewrite IH.
Qed.

Lemma reads_app (t u : list Event) : reads (t ++ u) = (reads t ++ reads u)%list.
Proof.
  induction t as [|[] t IH]; simpl; try assumption; [reflexivity|].
  now rewrite IH.
Qed.

Lemma upstream_calls_app (t u : list Event) :
  upstream_calls (t ++ u) = (upstream_calls t ++ upstream_calls u)%list.
Proof.
  induction t as [|[] t IH]; simpl; try assumption; [reflexivity|].
  now rewrite IH.
Qed.

Lemma logged_app (t u : list Event) :
  logged (t ++ u) = (logged t ++ logged u)%list.
Proof.
  induction t as [|[] t IH]; simpl; try assumption; [reflexivity|].
  now rewrite IH.
Qed.

(** * The loop over the images *)

(** A round never calls the model and never yields. *)
Lemma image_round_quiet (image : UploadFile) :
  upstream_calls (trace (image_round image)) = [] /\
  frames (trace (image_round image)) = [].
Proof.
  unfold image_round, image_try, encode_image_to_base64.
  destruct (read image), (seek image), (filename image); split; reflexivity.
Qed.

Lemma encode_images_quiet (images : list UploadFile)
    (image_contents : list ContentPart) :
  upstream_calls (trace (encode_images images image_contents)) = [] /\
  frames (trace (encode_images images image_contents)) = [].
Proof.
  revert image_contents.
  induction images as [|image rest IH]; intros acc; [now split|].
  cbn [encode_images]. rewrite trace_bind.
  destruct (image_round_quiet image) as [Hu Hf].
  destruct (outcome (image_round image)) as [e|locals]; [now split|].
  rewrite upstream_calls_app, frames_app, Hu, Hf.
  apply IH.
Qed.


(** The loop over a prefix of readable images reads and rewinds each of
    them, and goes on with the rest. *)
Lemma encode_images_prefix (pre rest : list UploadFile)
    (image_contents : list ContentPart) :
  forallb encodable pre = true ->
  exists parts,
    encode_images (pre ++ rest) image_contents
    = ((flat_map round_events pre
        ++ trace (encode_images rest (image_contents ++ parts)))%list,
       outcome (encode_images rest (image_contents ++ parts))).
Proof.
  revert image_contents.
  induction pre as [|image pre IH]; intros acc H.
  - exists []. rewrite app_nil_r. simpl.
    now destruct (encode_images rest acc).
  - simpl in H. apply andb_prop in H as [Hi Hpre].
    destruct (encodable_inv image Hi) as (name & bs & Hn & Hr & Hs).
    cbn [app encode_images].
    rewrite (image_round_ok image name bs Hn Hr Hs).
    cbn [bind descriptor].
    destruct (IH (acc ++ [ImageUrlPart (data_url (file_ext_of name)
                                          (b64encode bs))])%list Hpre)
      as (parts & ->).
    eexists (_ :: parts). rewrite <- app_assoc. reflexivity.
Qed.

Lemma image_round_unreadable (image : UploadFile) (msg : string) :
  read image = inl msg ->
  image_round image
  = ([EvRead image;
      EvLogError ("Error processing image " ++ str_filename image ++ ": "
                  ++ msg)],
     inl (HTTPException 400 ("Error processing image: " ++ msg))).
Proof.
  intros H. unfold image_round, image_try, encode_image_to_base64.
  rewrite H. reflexivity.
Qed.

Lemma reads_round_events (images : list UploadFile) :
  reads (flat_map round_events images) = images.
Proof. induction images as [|i l IH]; simpl; [reflexivity | now rewrite IH]. Qed.

Lemma quiet_round_events (images : list UploadFile) :
  logged (flat_map round_events images) = [].
Proof. induction images as [|i l IH]; simpl; [reflexivity | exact IH]. Qed.

(** * The streaming relay *)

Lemma relay_run (chunks : list Chunk) :
  relay chunks
  = (map (fun text => EvYield (data_frame text)) (relayed_texts chunks),
     inr tt).
Proof.
  induction chunks as [|chunk rest IH]; [reflexivity|].
  cbn [relay relayed_texts]. rewrite IH.
  destruct (chunk_text chunk); reflexivity.
Qed.

Lemma frames_yields (texts : list string) :
  frames (map (fun text => EvYield (data_frame text)) texts)
  = map data_frame texts.
Proof. induction texts as [|t l IH]; simpl; [reflexivity | now rewrite IH]. Qed.

Lemma upstream_calls_yields (texts : list string) :
  upstream_calls (map (fun text => EvYield (data_frame text)) texts) = [].
Proof. induction texts as [|t l IH]; simpl; [reflexivity | exact IH]. Qed.


(** The whole run of the phase, case by case on what the model does. *)
Lemma stream_phase_run (client : Client) (messages : list Message) :
  outcome (stream_phase client messages) = inr tt /\
  upstream_calls (trace (stream_phase client messages)) = [messages] /\
  frames (trace (stream_phase client messages))
  = match client "gpt-4.1" messages true with
    | CreateRaises msg => [error_frame (Exception msg); DONE]
    | CreateReturns chunks None =>
        (map data_frame (relayed_texts chunks) ++ [DONE])%list
    | CreateReturns chunks (Some msg) =>
        (map data_frame (relayed_texts chunks)
         ++ [error_frame (Exception msg); DONE])%list
    end.
Proof.
  unfold stream_phase, stream_try.
  destruct (client "gpt-4.1" messages true) as [msg|chunks [msg|]].
  - repeat split.
  - rewrite relay_run. cbn.
    rewrite !upstream_calls_app, !frames_app, upstream_calls_yields,
      frames_yields.
    cbn [frames upstream_calls]. rewrite ?app_nil_r.
    repeat split.
  - rewrite relay_run. cbn.
    rewrite !upstream_calls_app, !frames_app, upstream_calls_yields,
      frames_yields.
    cbn [frames upstream_calls]. rewrite ?app_nil_r.
    repeat split.
Qed.

Lemma build_messages_eq (prompt : string) (image_contents : list ContentPart) :
  build_messages prompt image_contents
  = [ {| role := "user"; content := TextPart prompt :: image_contents |} ].
Proof. destruct image_contents; reflexivity. Qed.

(** With the credential configured, the generator is the loop over the
    images followed by the streaming phase. *)
Lemma process_request_phases (OPENAI_API_KEY : option string) (client : Client)
    (images : list UploadFile) (language_mode : LanguageMode)
    (additional_info : option string) :
  truthy_opt OPENAI_API_KEY = true ->
  process_request OPENAI_API_KEY client images language_mode additional_info
  = bind (encode_images images [])
      (fun image_contents =>
         stream_phase client
           (build_messages (prompt_content language_mode additional_info)
              image_contents)).
Proof.
  intros H. unfold process_request. rewrite H. cbn [negb].
  now rewrite bind_ret_l.
Qed.


(** * Frames *)

Lemma list_ascii_of_string_app (a b : string) :
  list_ascii_of_string (a ++ b)
  = (list_ascii_of_string a ++ list_ascii_of_string b)%list.
Proof. induction a as [|c a IH]; simpl; [reflexivity | now rewrite IH]. Qed.




(** * The generator [process_request] *)







(** C3, as stated, fails on the detail: for an upload named [a.png] whose
    read raises [boom], the generator raises a 400 whose detail is
    [Error processing image: boom]; the name of the file is not in it. *)
Lemma unreadable_image_detail_omits_filename :
  filename unreadable_png = Some "a.png" /\
  outcome (process_request (Some "sk-test") sample_client [unreadable_png]
             GHERKIN None)
  = inl (HTTPException 400 "Error processing image: boom") /\
  ~ (exists status_code detail,
        outcome (process_request (Some "sk-test") sample_client
                   [unreadable_png] GHERKIN None)
        = inl (HTTPException status_code detail) /\
        is_4xx status_code /\
        contains "a.png" detail = true).
Proof.
  split; [reflexivity|]. split; [reflexivity|].
  intros (status_code & detail & H & _ & C).
  vm_compute in H. injection H as _ <-.
  vm_compute in C. discriminate C.
Qed.

(** C3, amended: if reading some image fails, processing stops at that first
    failing image: the images before it, and it, are the only ones read, the
    model is not called and no frame is emitted; the generator raises a
    client error, status 400, whose detail is [Error processing image: ]
    followed by the text of the read error.  The failing file's name is
    reported in the error log, not in the detail. *)
Theorem first_unreadable_image_aborts (OPENAI_API_KEY : option string)
    (client : Client) (pre post : list UploadFile) (bad : UploadFile)
    (msg : string) (language_mode : LanguageMode)
    (additional_info : option string)
    (Hkey : truthy_opt OPENAI_API_KEY = true)
    (Hpre : forallb encodable pre = true)
    (Hbad : read bad = inl msg) :
  let run := process_request OPENAI_API_KEY client (pre ++ bad :: post)
               language_mode additional_info in
  (exists status_code detail,
      outcome run = inl (HTTPException status_code detail) /\
      is_4xx status_code /\ status_code = 400%Z /\
      detail = "Error processing image: " ++ msg) /\
  reads (trace run) = (pre ++ [bad])%list /\
  upstream_calls (trace run) = [] /\
  frames (trace run) = [] /\
  logged (trace run)
  = ["Error processing image " ++ str_filename bad ++ ": " ++ msg].
Proof.
  intros run. subst run.
  rewrite (process_request_phases _ _ _ _ _ Hkey).
  rewrite outcome_bind, trace_bind.
  destruct (encode_images_quiet (pre ++ bad :: post) []) as [Hu Hf].
  destruct (encode_images_prefix pre (bad :: post) [] Hpre) as (parts & E).
  revert Hu Hf. rewrite E. clear E. cbn [app encode_images].
  rewrite (image_round_unreadable bad msg Hbad).
  cbn [bind trace outcome fst snd]. intros Hu Hf.
  split; [|split; [|split; [exact Hu|split; [exact Hf|]]]].
  - exists 400%Z, ("Error processing image: " ++ msg).
    split; [reflexivity|]. split; [unfold is_4xx; lia|]. now split.
  - rewrite reads_app, reads_round_events. reflexivity.
  - rewrite logged_app, quiet_round_events. reflexivity.
Qed.

Lemma first_unreadable_image_aborts_witness :
  reads (trace (process_request (Some "sk-test") sample_client
                  [sample_png; unreadable_png; sample_jpg] GHERKIN None))
  = [sample_png; unreadable_png] /\
  logged (trace (process_request (Some "sk-test") sample_client
                   [sample_png; unreadable_png; sample_jpg] GHERKIN None))
  = ["Error processing image a.png: boom"].
Proof.
  destruct (first_unreadable_image_aborts (Some "sk-test") sample_client
              [sample_png] [sample_jpg] unreadable_png "boom" GHERKIN None
              eq_refl eq_refl eq_refl) as (_ & Hr & _ & _ & Hl).
  split; [exact Hr | exact Hl].
Defined.

(** * Handlers *)

(** C8: with zero image files the handler raises the client error 400 with
    detail [At least one image is required]; it does so before anything
    else happens, so no call to the model is attempted. *)
Theorem no_image_is_a_400 (OPENAI_API_KEY : option string) (client : Client)
    (language_mode : LanguageMode) (additional_info : option string) :
  let run := create_test_caases OPENAI_API_KEY client [] language_mode
               additional_info in
  outcome run = inl (HTTPException 400 "At least one image is required") /\
  is_4xx 400 /\
  trace run = [] /\
  upstream_calls (trace run) = [].
Proof. repeat split; unfold is_4xx; lia. Qed.

(** With at least one image the handler returns the event stream whose body
    is the generator, not yet run. *)
Lemma create_test_caases_streams (OPENAI_API_KEY : option string)
    (client : Client) (image : UploadFile) (rest : list UploadFile)
    (language_mode : LanguageMode) (additional_info : option string) :
  create_test_caases OPENAI_API_KEY client (image :: rest) language_mode
    additional_info
  = ([], inr {| body := GeneratorBody
                          (process_request OPENAI_API_KEY client
                             (image :: rest) language_mode additional_info);
                media_type := "text/event-stream";
                headers := [] |}).
Proof. reflexivity. Qed.

(** Whatever the upstream service answers other than 200, the handler's own
    [except] catches the error raised for it and raises a 500 instead. *)
Lemma excel_proxy_non_200 (requests_post : Requests) (content : string)
    (status_code : Z) (response_content : list byte) :
  requests_post excel_url content = PostReturns status_code response_content ->
  status_code <> 200%Z ->
  generate_excel_proxy requests_post content
  = ([EvPost excel_url content;
      EvLogError ("Error generating Excel: " ++ str_int status_code
                  ++ ": Failed to generate Excel")],
     inl (HTTPException 500 "Failed to generate Excel file")).
Proof.
  intros H N. unfold generate_excel_proxy. rewrite H.
  destruct (Z.eqb_spec status_code 200) as [->|_]; [now elim N|].
  reflexivity.
Qed.

Lemma excel_proxy_200 (requests_post : Requests) (content : string)
    (response_content : list byte) :
  requests_post excel_url content = PostReturns 200 response_content ->
  exists response,
    generate_excel_proxy requests_post content
    = ([EvPost excel_url content], inr response) /\
    body response = BytesBody response_content.
Proof.
  intros H. unfold generate_excel_proxy. rewrite H.
  eexists. split; reflexivity.
Qed.

(** C1 does not hold of the code: with an upstream answer 404 the handler
    raises status 500 with detail [Failed to generate Excel file], because
    the error carrying the upstream status is raised inside the [try] whose
    [except Exception] replaces it. *)
Theorem excel_proxy_404_becomes_500 (content : string)
    (response_content : list byte) :
  outcome (generate_excel_proxy
             (fun _ _ => PostReturns 404 response_content) content)
  = inl (HTTPException 500 "Failed to generate Excel file") /\
  logged (trace (generate_excel_proxy
                   (fun _ _ => PostReturns 404 response_content) content))
  = ["Error generating Excel: 404: Failed to generate Excel"].
Proof. split; reflexivity. Qed.

(** * Further properties of the generator *)

Lemma reads_yields (texts : list string) :
  reads (map (fun text => EvYield (data_frame text)) texts) = [].
Proof. induction texts as [|t l IH]; simpl; [reflexivity | exact IH]. Qed.

Lemma logged_yields (texts : list string) :
  logged (map (fun text => EvYield (data_frame text)) texts) = [].
Proof. induction texts as [|t l IH]; simpl; [reflexivity | exact IH]. Qed.

(** The events of the streaming phase, case by case. *)
Lemma stream_phase_trace (client : Client) (messages : list Message) :
  trace (stream_phase client messages)
  = match client "gpt-4.1" messages true with
    | CreateRaises msg =>
        [EvPrint "Creating completion..."; EvCreate "gpt-4.1" messages true;
         EvLogError ("Error calling OpenAI API: " ++ msg); EvPrintExc;
         EvYield (error_frame (Exception msg)); EvYield DONE]
    | CreateReturns chunks None =>
        ([EvPrint "Creating completion..."; EvCreate "gpt-4.1" messages true;
          EvPrint "Completion created successfully."]
         ++ map (fun text => EvYield (data_frame text)) (relayed_texts chunks)
         ++ [EvYield DONE])%list
    | CreateReturns chunks (Some msg) =>
        ([EvPrint "Creating completion..."; EvCreate "gpt-4.1" messages true;
          EvPrint "Completion created successfully."]
         ++ map (fun text => EvYield (data_frame text)) (relayed_texts chunks)
         ++ [EvLogError ("Error calling OpenAI API: " ++ msg); EvPrintExc;
             EvYield (error_frame (Exception msg)); EvYield DONE])%list
    end.
Proof.
  unfold stream_phase, stream_try.
  destruct (client "gpt-4.1" messages true) as [msg|chunks [msg|]].
  - reflexivity.
  - rewrite relay_run. cbn [bind emit raise ret try_except stream_except trace
                              fst app str_exn].
    now rewrite app_nil_r.
  - rewrite relay_run. cbn [bind emit raise ret try_except stream_except trace
                              fst app str_exn].
    now rewrite ?app_nil_r, <- ?app_assoc.
Qed.

Lemma stream_phase_reads_nothing (client : Client) (messages : list Message) :
  reads (trace (stream_phase client messages)) = [].
Proof.
  rewrite stream_phase_trace.
  destruct (client "gpt-4.1" messages true) as [msg|chunks [msg|]];
    [reflexivity| |]; cbn [app reads]; now rewrite reads_app, reads_yields.
Qed.

Lemma stream_phase_logged (client : Client) (messages : list Message) :
  logged (trace (stream_phase client messages))
  = match client "gpt-4.1" messages true with
    | CreateRaises msg | CreateReturns _ (Some msg) =>
        ["Error calling OpenAI API: " ++ msg]
    | CreateReturns _ None => []
    end.
Proof.
  rewrite stream_phase_trace.
  destruct (client "gpt-4.1" messages true) as [msg|chunks [msg|]];
    [reflexivity| |]; cbn [app logged]; now rewrite logged_app, logged_yields.
Qed.

(** Every round reads its image, and only it. *)
Lemma image_round_reads (image : UploadFile) :
  reads (trace (image_round image)) = [image].
Proof.
  unfold image_round, image_try, encode_image_to_base64.
  destruct (read image), (seek image), (filename image); reflexivity.
Qed.

(** A round returns exactly on the uploads that are [encodable]; on the
    others it raises the 400 built from [round_error]. *)
Lemma image_round_outcome (image : UploadFile) :
  if encodable image
  then exists locals, outcome (image_round image) = inr locals /\
                      logged (trace (image_round image)) = []
  else outcome (image_round image)
       = inl (HTTPException 400
                ("Error processing image: " ++ round_error image)) /\
       logged (trace (image_round image))
       = ["Error processing image " ++ str_filename image ++ ": "
          ++ round_error image].
Proof.
  unfold encodable, round_error, image_round, image_try,
    encode_image_to_base64.
  destruct (read image), (seek image), (filename image); cbn;
    try (split; reflexivity); eexists; split; reflexivity.
Qed.

Lemma encode_images_reads (images : list UploadFile)
    (image_contents : list ContentPart) :
  exists rest,
    images = (reads (trace (encode_images images image_contents)) ++ rest)%list /\
    (forall result,
        outcome (encode_images images image_contents) = inr result ->
        rest = []).
Proof.
  revert image_contents.
  induction images as [|image l IH]; intros acc.
  - exists []. now split.
  - cbn [encode_images]. rewrite trace_bind, outcome_bind.
    pose proof (image_round_reads image) as Hr.
    destruct (outcome (image_round image)) as [e|locals].
    + exists l. rewrite Hr. split; [reflexivity | discriminate].
    + destruct (IH (acc ++ [descriptor locals])%list) as (rest & E & Hrest).
      exists rest. rewrite reads_app, Hr. cbn [app]. split; [|exact Hrest].
      now rewrite <- E.
Qed.

Lemma encode_images_raises (images : list UploadFile)
    (image_contents : list ContentPart) (e : Exn) :
  outcome (encode_images images image_contents) = inl e ->
  exists msg, e = HTTPException 400 ("Error processing image: " ++ msg).
Proof.
  revert image_contents.
  induction images as [|image l IH]; intros acc; cbn [encode_images].
  - discriminate.
  - rewrite outcome_bind. pose proof (image_round_outcome image) as Ho.
    destruct (encodable image).
    + destruct Ho as (locals & -> & _). apply IH.
    + destruct Ho as [-> _]. intros [= <-]. now eexists.
Qed.

Lemma encode_images_returns_quietly (images : list UploadFile)
    (image_contents result : list ContentPart) :
  outcome (encode_images images image_contents) = inr result ->
  logged (trace (encode_images images image_contents)) = [].
Proof.
  revert image_contents.
  induction images as [|image l IH]; intros acc; cbn [encode_images].
  - reflexivity.
  - rewrite outcome_bind, trace_bind.
    pose proof (image_round_outcome image) as Ho.
    destruct (encodable image).
    + destruct Ho as (locals & -> & Hl). intros H.
      now rewrite logged_app, Hl, (IH _ H).
    + destruct Ho as [-> _]. discriminate.
Qed.



(** X2: once the module has loaded, the credential check of the generator
    never fires: with the key the start-up guard let through, a run either
    finishes normally or raises a 400 about an image. *)
Theorem loaded_module_never_reports_missing_key (getenv key : option string)
    (t : list Event) (client : Client) (images : list UploadFile)
    (language_mode : LanguageMode) (additional_info : option string)
    (Hload : load_OPENAI_API_KEY getenv = (t, inr key)) :
  key = getenv /\
  let run := process_request key client images language_mode additional_info in
  outcome run = inr tt \/
  exists msg,
    outcome run = inl (HTTPException 400 ("Error processing image: " ++ msg)).
Proof.
  unfold load_OPENAI_API_KEY in Hload.
  destruct (truthy_opt getenv) eqn:K; cbn in Hload; [|discriminate].
  injection Hload as _ <-. split; [reflexivity|]. intros run. subst run.
  rewrite (process_request_phases _ _ _ _ _ K), outcome_bind.
  destruct (outcome (encode_images images [])) as [e|image_contents] eqn:E.
  - right. destruct (encode_images_raises _ _ _ E) as (msg & ->).
    now exists msg.
  - left. apply stream_phase_run.
Qed.

Lemma loaded_module_never_reports_missing_key_witness :
  let run := process_request (Some "sk-test") refusing_client
               [sample_png] GHERKIN None in
  outcome run = inr tt \/
  exists msg,
    outcome run = inl (HTTPException 400 ("Error processing image: " ++ msg)).
Proof.
  exact (proj2 (loaded_module_never_reports_missing_key (Some "sk-test")
                  (Some "sk-test") [] refusing_client [sample_png] GHERKIN
                  None eq_refl)).
Defined.

(** X3: an upload that cannot be encoded for any reason (its read raises,
    its rewind raises, or it has no filename) aborts the batch like an
    unreadable one: status 400 with the text of the exception, the images up
    to it read and no other, the model not called, no frame emitted, one
    line logged. *)
Theorem any_failing_round_aborts (OPENAI_API_KEY : option string)
    (client : Client) (pre post : list UploadFile) (bad : UploadFile)
    (language_mode : LanguageMode) (additional_info : option string)
    (Hkey : truthy_opt OPENAI_API_KEY = true)
    (Hpre : forallb encodable pre = true)
    (Hbad : encodable bad = false) :
  let run := process_request OPENAI_API_KEY client (pre ++ bad :: post)
               language_mode additional_info in
  outcome run
  = inl (HTTPException 400 ("Error processing image: " ++ round_error bad)) /\
  reads (trace run) = (pre ++ [bad])%list /\
  upstream_calls (trace run) = [] /\
  frames (trace run) = [] /\
  logged (trace run)
  = ["Error processing image " ++ str_filename bad ++ ": " ++ round_error bad].
Proof.
  intros run. subst run.
  rewrite (process_request_phases _ _ _ _ _ Hkey), outcome_bind, trace_bind.
  destruct (encode_images_quiet (pre ++ bad :: post) []) as [Hu Hf].
  destruct (encode_images_prefix pre (bad :: post) [] Hpre) as (parts & E).
  revert Hu Hf. rewrite E. clear E. cbn [app encode_images].
  rewrite outcome_bind, trace_bind.
  pose proof (image_round_outcome bad) as Ho. rewrite Hbad in Ho.
  destruct Ho as [Ho Hl]. rewrite Ho. cbn [trace outcome fst snd].
  intros Hu Hf. repeat split; try assumption.
  - now rewrite reads_app, reads_round_events, image_round_reads.
  - now rewrite logged_app, quiet_round_events, Hl.
Qed.

Lemma any_failing_round_aborts_witness :
  let run := process_request (Some "sk-test") sample_client
               [sample_png; unseekable_png; sample_jpg] GHERKIN None in
  outcome run = inl (HTTPException 400 "Error processing image: closed file") /\
  reads (trace run) = [sample_png; unseekable_png].
Proof.
  destruct (any_failing_round_aborts (Some "sk-test") sample_client
              [sample_png] [sample_jpg] unseekable_png GHERKIN None
              eq_refl eq_refl eq_refl) as (Ho & Hr & _).
  split; [exact Ho | exact Hr].
Defined.

(** X4: in every run, whatever the inputs, the files read are an initial
    segment of the uploaded list, in the order of the list: no file is read
    twice, skipped or read out of turn. *)
Theorem reads_are_an_initial_segment (OPENAI_API_KEY : option string)
    (client : Client) (images : list UploadFile)
    (language_mode : LanguageMode) (additional_info : option string) :
  exists rest,
    images
    = (reads (trace (process_request OPENAI_API_KEY client images
                       language_mode additional_info)) ++ rest)%list.
Proof.
  destruct (truthy_opt OPENAI_API_KEY) eqn:K.
  - rewrite (process_request_phases _ _ _ _ _ K), trace_bind.
    destruct (encode_images_reads images []) as (rest & E & _).
    exists rest.
    destruct (outcome (encode_images images [])); [exact E|].
    now rewrite reads_app, stream_phase_reads_nothing, app_nil_r.
  - exists images. unfold process_request. rewrite K. reflexivity.
Qed.

(** X5: in every run the model is called at most once, and when it is
    called every uploaded file has been read before, in order, and no error
    has been logged for an image. *)
Theorem one_upstream_call_after_all_reads (OPENAI_API_KEY : option string)
    (client : Client) (images : list UploadFile)
    (language_mode : LanguageMode) (additional_info : option string) :
  let run := process_request OPENAI_API_KEY client images language_mode
               additional_info in
  upstream_calls (trace run) = [] \/
  exists messages before after,
    upstream_calls (trace run) = [messages] /\
    trace run = (before ++ EvCreate "gpt-4.1" messages true :: after)%list /\
    reads before = images /\ logged before = [] /\ reads after = [].
Proof.
  intros run. subst run.
  destruct (truthy_opt OPENAI_API_KEY) eqn:K.
  - rewrite (process_request_phases _ _ _ _ _ K), trace_bind.
    destruct (outcome (encode_images images [])) as [e|image_contents] eqn:E.
    + left. apply encode_images_quiet.
    + right. set (messages := build_messages _ _).
      destruct (stream_phase_run client messages) as (_ & Hu & _).
      destruct (encode_images_reads images []) as (rest & Hi & Hrest).
      rewrite (Hrest _ E), app_nil_r in Hi.
      pose proof (stream_phase_reads_nothing client messages) as Hr.
      rewrite stream_phase_trace in Hr |- *.
      rewrite upstream_calls_app.
      destruct (encode_images_quiet images []) as [-> _]. cbn [app].
      rewrite stream_phase_trace in Hu.
      exists messages,
        (trace (encode_images images []) ++ [EvPrint "Creating completion..."])%list.
      destruct (client "gpt-4.1" messages true) as [msg|chunks [msg|]];
        eexists; (split; [exact Hu|]);
        (split; [rewrite <- app_assoc; reflexivity|]);
        rewrite reads_app, logged_app, <- Hi,
          (encode_images_returns_quietly _ _ _ E);
        cbn [reads logged app]; rewrite app_nil_r;
        (split; [reflexivity|]); (split; [reflexivity|]);
        exact Hr.
  - left. unfold process_request. rewrite K. reflexivity.
Qed.

(** * Further properties of the frames *)

Lemma take_app_length (a b : string) : take (String.length a) (a ++ b) = a.
Proof. induction a as [|c a IH]; simpl; [now destruct b | now rewrite IH]. Qed.

Lemma frame_payload_data_frame (text : string) :
  frame_payload (data_frame text) = text.
Proof.
  unfold frame_payload.
  assert (L : String.length (data_frame text) - 8 = String.length text).
  { unfold data_frame. rewrite !length_append.
    change (String.length "data: ") with 6.
    change (String.length nl) with 1. lia. }
  rewrite L. unfold data_frame.
  change (drop 6 ("data: " ++ text ++ nl ++ nl)) with (text ++ nl ++ nl).
  apply take_app_length.
Qed.

Lemma data_frame_well_formed (text : string) :
  well_formed_frame (data_frame text).
Proof.
  split; [reflexivity|]. exists ("data: " ++ text).
  unfold data_frame. now rewrite append_assoc.
Qed.

Lemma DONE_well_formed : well_formed_frame DONE.
Proof. apply (data_frame_well_formed "[DONE]"). Qed.

Lemma error_frame_well_formed (e : Exn) : well_formed_frame (error_frame e).
Proof. apply (data_frame_well_formed ("Error: " ++ str_exn e)). Qed.

(** What the relay drops carries no text. *)
Lemma relayed_texts_concat (chunks : list Chunk) :
  concat_texts (relayed_texts chunks)
  = concat_texts (map chunk_raw_text chunks).
Proof.
  induction chunks as [|chunk rest IH]; [reflexivity|].
  cbn [relayed_texts map concat_texts fold_right].
  fold (concat_texts (map chunk_raw_text rest)). rewrite <- IH.
  unfold chunk_text, chunk_raw_text.
  destruct (chunk_choices chunk) as [[|choice ?]|]; try reflexivity.
  destruct (choice_delta choice) as [delta|]; [|reflexivity].
  destruct (delta_content delta) as [[text|]|]; try reflexivity.
  destruct text; reflexivity.
Qed.

Lemma relayed_texts_length (chunks : list Chunk) :
  length (relayed_texts chunks) <= length chunks.
Proof.
  induction chunks as [|chunk rest IH]; simpl; [lia|].
  destruct (chunk_text chunk); simpl; lia.
Qed.

(** The frames of a run that got past the images. *)
Lemma frames_after_encoding (OPENAI_API_KEY : option string) (client : Client)
    (images : list UploadFile) (language_mode : LanguageMode)
    (additional_info : option string) (image_contents : list ContentPart) :
  truthy_opt OPENAI_API_KEY = true ->
  outcome (encode_images images []) = inr image_contents ->
  let run := process_request OPENAI_API_KEY client images language_mode
               additional_info in
  let messages := [user_message (prompt_content language_mode additional_info)
                     image_contents] in
  outcome run = inr tt /\
  frames (trace run) = frames (trace (stream_phase client messages)) /\
  logged (trace run) = logged (trace (stream_phase client messages)).
Proof.
  intros K E run messages. subst run messages. unfold user_message.
  rewrite (process_request_phases _ _ _ _ _ K), outcome_bind, trace_bind, E.
  rewrite build_messages_eq, frames_app, logged_app.
  destruct (encode_images_quiet images []) as [_ ->].
  rewrite (encode_images_returns_quietly _ _ _ E).
  split; [apply stream_phase_run | now split].
Qed.

(** X6: what a run that reached the model emits, whatever the model does.
    If the call is refused: the error frame and [DONE], nothing else.  If the
    stream breaks: the frames relayed so far, then the error frame and
    [DONE].  Otherwise the relayed frames and [DONE].  The generator returns
    normally in the three cases, and logs one line in the first two. *)
Theorem frames_of_a_run (OPENAI_API_KEY : option string) (client : Client)
    (images : list UploadFile) (language_mode : LanguageMode)
    (additional_info : option string) (image_contents : list ContentPart)
    (Hkey : truthy_opt OPENAI_API_KEY = true)
    (Henc : outcome (encode_images images []) = inr image_contents) :
  let run := process_request OPENAI_API_KEY client images language_mode
               additional_info in
  let messages := [user_message (prompt_content language_mode additional_info)
                     image_contents] in
  outcome run = inr tt /\
  match client "gpt-4.1" messages true with
  | CreateRaises msg =>
      frames (trace run) = [data_frame ("Error: " ++ msg); DONE] /\
      logged (trace run) = ["Error calling OpenAI API: " ++ msg]
  | CreateReturns chunks (Some msg) =>
      frames (trace run)
      = (map data_frame (relayed_texts chunks)
         ++ [data_frame ("Error: " ++ msg); DONE])%list /\
      logged (trace run) = ["Error calling OpenAI API: " ++ msg]
  | CreateReturns chunks None =>
      frames (trace run)
      = (map data_frame (relayed_texts chunks) ++ [DONE])%list /\
      logged (trace run) = []
  end.
Proof.
  intros run messages.
  destruct (frames_after_encoding _ client _ language_mode additional_info _
              Hkey Henc) as (Ho & Hf & Hl).
  fold run messages in Ho, Hf, Hl. split; [exact Ho|].
  rewrite Hf, Hl, stream_phase_logged.
  destruct (stream_phase_run client messages) as (_ & _ & ->).
  destruct (client "gpt-4.1" messages true) as [msg|chunks [msg|]];
    split; reflexivity.
Qed.

Lemma frames_of_a_run_witness :
  frames (trace (process_request (Some "sk-test") refusing_client
                   [sample_png] GHERKIN None))
  = [data_frame "Error: invalid api key"; DONE].
Proof.
  exact (proj1 (proj2 (frames_of_a_run (Some "sk-test") refusing_client
                         [sample_png] GHERKIN None
                         [ImageUrlPart "data:image/png;base64,TWFu"]
                         eq_refl eq_refl))).
Defined.

(** X7: the relay loses nothing and adds nothing.  On a stream that ends
    normally, the payloads of the frames before [DONE], concatenated in
    order, are the contents of the upstream deltas concatenated in order;
    only deltas without text are dropped. *)
Theorem relay_is_lossless (OPENAI_API_KEY : option string) (client : Client)
    (images : list UploadFile) (language_mode : LanguageMode)
    (additional_info : option string) (image_contents : list ContentPart)
    (chunks : list Chunk)
    (Hkey : truthy_opt OPENAI_API_KEY = true)
    (Henc : outcome (encode_images images []) = inr image_contents)
    (Hok : client "gpt-4.1"
             [user_message (prompt_content language_mode additional_info)
                image_contents] true
           = CreateReturns chunks None) :
  let run := process_request OPENAI_API_KEY client images language_mode
               additional_info in
  concat_texts (map frame_payload (removelast (frames (trace run))))
  = concat_texts (map chunk_raw_text chunks).
Proof.
  intros run.
  destruct (frames_after_encoding _ client _ language_mode additional_info _
              Hkey Henc) as (_ & Hf & _).
  fold run in Hf. rewrite Hf.
  destruct (stream_phase_run client
              [user_message (prompt_content language_mode additional_info)
                 image_contents]) as (_ & _ & ->).
  rewrite Hok, removelast_last, map_map, <- relayed_texts_concat.
  f_equal. rewrite <- (map_id (relayed_texts chunks)) at 2.
  apply map_ext. intros text. apply frame_payload_data_frame.
Qed.

Lemma relay_is_lossless_witness :
  concat_texts
    (map frame_payload
       (removelast
          (frames (trace (process_request (Some "sk-test") sample_client
                            [sample_png] GHERKIN None)))))
  = "Feature: Login  Scenario: ok".
Proof.
  exact (relay_is_lossless (Some "sk-test") sample_client [sample_png]
           GHERKIN None [ImageUrlPart "data:image/png;base64,TWFu"]
           _ eq_refl eq_refl eq_refl).
Defined.

(** X8: every chunk becomes at most one frame: a run whose upstream stream
    has n chunks emits at most n + 2 frames (the relayed ones, possibly the
    error frame, and [DONE]). *)
Theorem at_most_one_frame_per_chunk (OPENAI_API_KEY : option string)
    (client : Client) (images : list UploadFile)
    (language_mode : LanguageMode) (additional_info : option string)
    (image_contents : list ContentPart) (chunks : list Chunk)
    (failure : option string)
    (Hkey : truthy_opt OPENAI_API_KEY = true)
    (Henc : outcome (encode_images images []) = inr image_contents)
    (Hup : client "gpt-4.1"
             [user_message (prompt_content language_mode additional_info)
                image_contents] true
           = CreateReturns chunks failure) :
  length (frames (trace (process_request OPENAI_API_KEY client images
                           language_mode additional_info)))
  <= length chunks + 2.
Proof.
  destruct (frames_after_encoding _ client _ language_mode additional_info _
              Hkey Henc) as (_ & Hf & _).
  cbv zeta in Hf. rewrite Hf.
  destruct (stream_phase_run client
              [user_message (prompt_content language_mode additional_info)
                 image_contents]) as (_ & _ & ->).
  rewrite Hup. pose proof (relayed_texts_length chunks).
  destruct failure; rewrite length_app, length_map; simpl; lia.
Qed.

Lemma at_most_one_frame_per_chunk_witness :
  length (frames (trace (process_request (Some "sk-test") sample_client
                           [sample_png] GHERKIN None)))
  <= 4 + 2.
Proof.
  exact (at_most_one_frame_per_chunk (Some "sk-test") sample_client
           [sample_png] GHERKIN None [ImageUrlPart "data:image/png;base64,TWFu"]
           _ None eq_refl eq_refl eq_refl).
Defined.

(** X9: every frame of every run, whatever the inputs and whatever the model
    does, starts with [data: ] and ends with a blank line. *)
Theorem every_frame_is_well_formed (OPENAI_API_KEY : option string)
    (client : Client) (images : list UploadFile)
    (language_mode : LanguageMode) (additional_info : option string) :
  Forall well_formed_frame
    (frames (trace (process_request OPENAI_API_KEY client images
                      language_mode additional_info))).
Proof.
  destruct (truthy_opt OPENAI_API_KEY) eqn:K.
  - rewrite (process_request_phases _ _ _ _ _ K), trace_bind.
    destruct (encode_images_quiet images []) as [_ Hq].
    destruct (outcome (encode_images images [])) as [e|image_contents].
    + rewrite Hq. constructor.
    + rewrite frames_app, Hq. cbn [app].
      set (messages := build_messages _ _).
      destruct (stream_phase_run client messages) as (_ & _ & ->).
      assert (R : forall texts, Forall well_formed_frame (map data_frame texts)).
      { intros texts. apply Forall_forall. intros f Hf.
        apply in_map_iff in Hf as (t & <- & _). apply data_frame_well_formed. }
      destruct (client "gpt-4.1" messages true) as [msg|chunks [msg|]].
      * repeat constructor;
          [apply error_frame_well_formed | apply DONE_well_formed].
      * apply Forall_app. split; [apply R|].
        repeat constructor;
          [apply error_frame_well_formed | apply DONE_well_formed].
      * apply Forall_app. split; [apply R|].
        repeat constructor. apply DONE_well_formed.
  - unfold process_request. rewrite K. constructor.
Qed.

(** X10: a frame determines its text: the payload of the frame built for a
    text is that text, so two different texts never give the same frame. *)
Theorem frame_text_is_recoverable (text text' : string) :
  frame_payload (data_frame text) = text /\
  (data_frame text = data_frame text' -> text = text').
Proof.
  split; [apply frame_payload_data_frame|]. intros H.
  rewrite <- (frame_payload_data_frame text), H.
  apply frame_payload_data_frame.
Qed.

(** * Further properties of the prompts *)

Lemma append_inv_head (a b c : string) : a ++ b = a ++ c -> b = c.
Proof.
  induction a as [|x a IH]; simpl; intros H; [exact H|].
  injection H as H. now apply IH.
Qed.

Lemma append_empty_r (a : string) : a ++ EmptyString = a.
Proof. induction a as [|x a IH]; simpl; [reflexivity | now rewrite IH]. Qed.

(** X11: whatever the free text, the prompt begins with the whole template
    of the mode: the free text can only follow the instructions, never
    precede or replace them. *)
Theorem prompt_begins_with_template (language_mode : LanguageMode)
    (additional_info : option string) :
  startswith (template_of language_mode)
    (prompt_content language_mode additional_info) = true.
Proof.
  apply startswith_spec. rewrite prompt_content_cases.
  destruct (truthy_opt additional_info).
  - now eexists.
  - exists EmptyString. now rewrite append_empty_r.
Qed.

(** The two templates part ways at a fixed place of their first sentence. *)
Lemma prompts_part_ways (additional_info : option string) :
  startswith (take 60 gherkin_template)
    (prompt_content GHERKIN additional_info) = true /\
  startswith (take 60 gherkin_template)
    (prompt_content TRADITIONAL additional_info) = false.
Proof.
  rewrite !prompt_content_cases. destruct (truthy_opt additional_info).
  - split; vm_compute; reflexivity.
  - split; vm_compute; reflexivity.
Qed.

(** X12: the prompt determines the request: two requests get the same prompt
    only if they have the same mode and the same free text, an absent free
    text and an empty one counting as the same. *)
Theorem prompt_determines_mode_and_text (mode mode' : LanguageMode)
    (info info' : option string)
    (Heq : prompt_content mode info = prompt_content mode' info') :
  mode = mode' /\ supplied info = supplied info'.
Proof.
  assert (M : mode = mode').
  { destruct mode, mode'; try reflexivity.
    - destruct (prompts_part_ways info) as [H1 _].
      destruct (prompts_part_ways info') as [_ H2]. congruence.
    - destruct (prompts_part_ways info') as [H1 _].
      destruct (prompts_part_ways info) as [_ H2]. congruence. }
  subst mode'. split; [reflexivity|].
  rewrite !prompt_content_cases in Heq.
  assert (S : forall i, truthy_opt i = false -> supplied i = EmptyString).
  { intros [[|]|]; simpl; congruence. }
  assert (T : forall i, truthy_opt i = true -> supplied i <> EmptyString).
  { intros [[|]|]; simpl; congruence. }
  assert (N : forall t x, t = t ++ additional_info_intro ++ x -> False).
  { intros t x H. apply (f_equal String.length) in H.
    rewrite !length_append in H.
    change (String.length additional_info_intro) with 54 in H. lia. }
  destruct (truthy_opt info) eqn:K, (truthy_opt info') eqn:K'.
  - now apply append_inv_head, append_inv_head in Heq.
  - symmetry in Heq. now apply N in Heq.
  - now apply N in Heq.
  - now rewrite (S _ K), (S _ K').
Qed.

Lemma prompt_determines_mode_and_text_witness :
  GHERKIN = GHERKIN /\ supplied None = supplied (Some EmptyString).
Proof.
  apply (prompt_determines_mode_and_text GHERKIN GHERKIN None
           (Some EmptyString)).
  reflexivity.
Defined.

(** * Further properties of the file extension *)

Lemma lower_ascii_dot (c : ascii) :
  Ascii.eqb "." (lower_ascii c) = Ascii.eqb "." c.
Proof. destruct c as [[] [] [] [] [] [] [] []]; reflexivity. Qed.

Lemma lower_ascii_idempotent (c : ascii) :
  lower_ascii (lower_ascii c) = lower_ascii c.
Proof. destruct c as [[] [] [] [] [] [] [] []]; reflexivity. Qed.

Lemma lower_idempotent (s : string) : lower (lower s) = lower s.
Proof.
  induction s as [|c s IH]; simpl; [reflexivity|].
  now rewrite lower_ascii_idempotent, IH.
Qed.

Lemma contains_dot_cons (c : ascii) (s : string) :
  contains "." (String c s) = if Ascii.eqb "." c then true else contains "." s.
Proof. cbn [contains startswith]. now destruct (Ascii.eqb "." c). Qed.

Lemma contains_dot_lower (s : string) :
  contains "." (lower s) = contains "." s.
Proof.
  induction s as [|c s IH]; [reflexivity|].
  cbn [lower]. now rewrite !contains_dot_cons, lower_ascii_dot, IH.
Qed.

(** No segment of a split contains the separator. *)
Lemma split_segments_dotless (s : string) :
  Forall (fun segment => contains "." segment = false) (split "." s).
Proof.
  induction s as [|c s IH]; [repeat constructor|].
  cbn [split]. destruct (Ascii.eqb_spec c ".") as [->|N].
  - constructor; [reflexivity | exact IH].
  - destruct (split "." s) as [|h t]; [repeat constructor|].
    + rewrite contains_dot_cons.
      destruct (Ascii.eqb_spec "." c) as [E|_]; [now elim N | reflexivity].
    + inversion IH as [|? ? Hh Ht]; subst. constructor; [|exact Ht].
      rewrite contains_dot_cons.
      destruct (Ascii.eqb_spec "." c) as [E|_]; [now elim N | exact Hh].
Qed.

Lemma split_lower (s : string) :
  split "." (lower s) = map lower (split "." s).
Proof.
  induction s as [|c s IH]; [reflexivity|].
  cbn [lower split]. rewrite IH.
  rewrite (Ascii.eqb_sym (lower_ascii c)), lower_ascii_dot,
    (Ascii.eqb_sym "." c).
  destruct (Ascii.eqb c "."); [reflexivity|].
  destruct (split "." s); reflexivity.
Qed.

Lemma last_map_lower (l : list string) :
  last (map lower l) EmptyString = lower (last l EmptyString).
Proof.
  induction l as [|a [|b l] IH]; [reflexivity | reflexivity |].
  exact IH.
Qed.

(** X13: the inferred extension never contains a dot, whatever the
    filename. *)
Theorem file_ext_has_no_dot (name : string) :
  contains "." (file_ext_of name) = false.
Proof.
  unfold file_ext_of. rewrite contains_dot_lower.
  pose proof (split_segments_dotless name) as H.
  pose proof (split_not_nil "." name) as N.
  induction H as [|h [|h' t] Hh Ht IH]; [now elim N | exact Hh |].
  apply IH. discriminate.
Qed.

Lemma is_ascii_cons (c : ascii) (s : string) :
  is_ascii (String c s) = (N_of_ascii c <? 128)%N && is_ascii s.
Proof. reflexivity. Qed.

Lemma lower_ascii_is_ascii (c : ascii) :
  (N_of_ascii (lower_ascii c) <? 128)%N = (N_of_ascii c <? 128)%N.
Proof. destruct c as [[] [] [] [] [] [] [] []]; reflexivity. Qed.

(** Lowering ASCII text gives ASCII text. *)
Lemma lower_is_ascii (s : string) : is_ascii (lower s) = is_ascii s.
Proof.
  induction s as [|c s IH]; [reflexivity|].
  cbn [lower]. now rewrite !is_ascii_cons, lower_ascii_is_ascii, IH.
Qed.

(** The segments of ASCII text are ASCII text. *)
Lemma split_is_ascii (s : string) :
  is_ascii s = true -> forallb is_ascii (split "." s) = true.
Proof.
  induction s as [|c s IH]; [reflexivity|].
  rewrite is_ascii_cons. intros H. apply andb_prop in H as [Hc Hs].
  specialize (IH Hs). cbn [split].
  destruct (Ascii.eqb c "."); [exact IH|].
  destruct (split "." s) as [|h t]; cbn [forallb] in *.
  - now rewrite is_ascii_cons, Hc.
  - apply andb_prop in IH as [Hh Ht]. now rewrite is_ascii_cons, Hc, Hh, Ht.
Qed.

(** X14: for a filename of ASCII characters, the inferred extension does not
    depend on the letter case of the filename, is itself in lower case, and
    is ASCII text. *)
Theorem file_ext_ignores_case (name : string)
    (Hascii : is_ascii name = true) :
  file_ext_of (lower name) = file_ext_of name /\
  lower (file_ext_of name) = file_ext_of name /\
  is_ascii (file_ext_of name) = true.
Proof.
  unfold file_ext_of. split; [|split].
  - now rewrite split_lower, last_map_lower, lower_idempotent.
  - apply lower_idempotent.
  - rewrite lower_is_ascii.
    pose proof (split_is_ascii name Hascii) as H.
    pose proof (split_not_nil "." name) as N.
    induction (split "." name) as [|h [|h' t] IH]; [now elim N | |].
    + cbn [forallb] in H. now apply andb_prop in H as [H _].
    + cbn [forallb] in H. apply andb_prop in H as [_ H].
      apply IH; [exact H | discriminate].
Qed.

Lemma file_ext_ignores_case_witness :
  file_ext_of (lower "Home.Page.PNG") = file_ext_of "Home.Page.PNG" /\
  file_ext_of "Home.Page.PNG" = "png".
Proof.
  split; [|reflexivity].
  exact (proj1 (file_ext_ignores_case "Home.Page.PNG" eq_refl)).
Defined.

(** X15: for a name made of a stem, a dot and a dot-free ending, the
    extension is that ending in lower case, whatever the stem (dots
    included); with nothing after the last dot the extension is empty. *)
Theorem file_ext_is_after_last_dot (stem ending : string)
    (Hdot : contains "." ending = false) :
  file_ext_of (stem ++ "." ++ ending) = lower ending.
Proof.
  change (stem ++ "." ++ ending) with (stem ++ String "." ending).
  rewrite file_ext_of_app. now apply file_ext_of_without_dot.
Qed.

Lemma file_ext_is_after_last_dot_witness :
  file_ext_of ("v1.2.final" ++ "." ++ "PNG") = "png" /\
  file_ext_of ("draft" ++ "." ++ "") = "".
Proof.
  split.
  - apply (file_ext_is_after_last_dot "v1.2.final" "PNG"). reflexivity.
  - apply (file_ext_is_after_last_dot "draft" ""). reflexivity.
Defined.

(** X16: for every upload that is encoded, the media type written in the
    descriptor URL is [image/] followed by the extension, and the MIME
    classification agrees with it for every extension except [jpg]. *)
Theorem mime_and_url_disagree_only_on_jpg (image : UploadFile)
    (locals : ImageLocals)
    (Hok : outcome (image_round image) = inr locals) :
  descriptor locals
  = ImageUrlPart ("data:" ++ ("image/" ++ file_ext locals) ++ ";base64,"
                  ++ base64_image locals) /\
  (mime_type locals = "image/" ++ file_ext locals <-> file_ext locals <> "jpg").
Proof.
  revert Hok. unfold image_round, image_try, encode_image_to_base64.
  destruct (read image), (seek image), (filename image) as [name|];
    try discriminate.
  intros [= <-]. cbn [descriptor mime_type file_ext base64_image].
  split.
  - reflexivity.
  - unfold mime_type_of. destruct (String.eqb_spec (file_ext_of name) "jpg")
      as [->|N]; split; try congruence; discriminate.
Qed.

Lemma mime_and_url_disagree_only_on_jpg_witness :
  exists locals,
    outcome (image_round sample_jpg) = inr locals /\
    descriptor locals = ImageUrlPart "data:image/jpg;base64,TQ==" /\
    mime_type locals = "image/jpeg".
Proof.
  eexists. split; [reflexivity|].
  split; [|reflexivity].
  exact (proj1 (mime_and_url_disagree_only_on_jpg sample_jpg _ eq_refl)).
Defined.

(** X17: splitting a name at the dots and joining the segments with dots
    gives the name back. *)
Theorem join_split (name : string) : join "." (split "." name) = name.
Proof.
  induction name as [|c s IH]; [reflexivity|].
  cbn [split]. pose proof (split_not_nil "." s) as N.
  destruct (Ascii.eqb_spec c ".") as [->|_].
  - destruct (split "." s) as [|h t]; [now elim N|].
    change (join "." ("" :: h :: t)) with ("." ++ join "." (h :: t)).
    now rewrite IH.
  - destruct (split "." s) as [|h [|h' t]]; [now elim N | |].
    + cbn [join] in *. now rewrite IH.
    + change (join "." (String c h :: h' :: t))
        with (String c (h ++ "." ++ join "." (h' :: t))).
      change (join "." (h :: h' :: t)) with (h ++ "." ++ join "." (h' :: t))
        in IH.
      now rewrite IH.
Qed.

(** * Base64 *)

Lemma list_ind3 {A : Type} (P : list A -> Prop) :
  P [] -> (forall a, P [a]) -> (forall a b, P [a; b]) ->
  (forall a b c rest, P rest -> P (a :: b :: c :: rest)) ->
  forall l, P l.
Proof.
  intros H0 H1 H2 H3.
  assert (H : forall l, P l /\ (forall a, P (a :: l)) /\
                        (forall a b, P (a :: b :: l))).
  { induction l as [|x l (I0 & I1 & I2)].
    - repeat split; auto.
    - split; [apply I1|]. split; [intros a; apply I2|].
      intros a b. now apply H3. }
  intros l. apply H.
Qed.

(** X18: the encoding of n bytes has 4 * ceil(n / 3) characters. *)
Theorem b64encode_length (bs : list byte) :
  String.length (b64encode bs) = 4 * ((length bs + 2) / 3).
Proof.
  induction bs as [| a | a b | a b c rest IH] using list_ind3;
    try reflexivity.
  cbn [b64encode String.length length]. rewrite IH.
  replace (S (S (S (length rest))) + 2) with (1 * 3 + (length rest + 2))
    by lia.
  rewrite Nat.div_add_l by discriminate. lia.
Qed.

Lemma get_In (i : nat) (s : string) (c : ascii) :
  String.get i s = Some c -> In c (list_ascii_of_string s).
Proof.
  revert i; induction s as [|d s IH]; intros i; simpl; [discriminate|].
  destruct i as [|i]; [intros [= ->]; now left | right; now apply (IH i)].
Qed.

Lemma b64_char_in_alphabet (n : N) :
  In (b64_char n) (list_ascii_of_string (b64_alphabet ++ "=")).
Proof.
  rewrite list_ascii_of_string_app. apply in_or_app. unfold b64_char.
  destruct (String.get (N.to_nat n) b64_alphabet) as [c|] eqn:E.
  - left. now apply (get_In _ _ _ E).
  - right. now left.
Qed.

(** X19: the encoding is made of the 64 characters of the alphabet and of
    the padding [=] only: no quote, comma, semicolon, blank or line break
    can enter the data URL through it. *)
Theorem b64encode_alphabet (bs : list byte) :
  Forall (fun c => In c (list_ascii_of_string (b64_alphabet ++ "=")))
    (list_ascii_of_string (b64encode bs)).
Proof.
  assert (P : In "="%char (list_ascii_of_string (b64_alphabet ++ "="))).
  { rewrite list_ascii_of_string_app. apply in_or_app. right. now left. }
  induction bs as [| a | a b | a b c rest IH] using list_ind3;
    cbn [b64encode list_ascii_of_string];
    repeat (constructor; try apply b64_char_in_alphabet; try exact P).
  exact IH.
Qed.

Lemma lor_mul_add (x y k : N) :
  (y < 2 ^ k -> N.lor (x * 2 ^ k) y = x * 2 ^ k + y)%N.
Proof.
  intros H.
  assert (D : N.land (x * 2 ^ k) y = 0%N).
  { apply N.bits_inj_0. intros i. rewrite N.land_spec.
    destruct (N.lt_ge_cases i k) as [L|G].
    - now rewrite N.mul_pow2_bits_low.
    - rewrite <- (N.mod_small y (2 ^ k)) by exact H.
      rewrite N.mod_pow2_bits_high by exact G. apply andb_false_r. }
  rewrite <- N.lxor_lor by exact D. symmetry.
  now apply N.add_nocarry_lxor.
Qed.

(** The 24-bit group of three bytes is their positional sum. *)
Lemma group_value (A B C : N) :
  (A < 256 -> B < 256 -> C < 256 ->
   N.lor (N.lor (N.shiftl A 16) (N.shiftl B 8)) C
   = A * 65536 + B * 256 + C)%N.
Proof.
  intros HA HB HC. rewrite !N.shiftl_mul_pow2.
  rewrite (lor_mul_add A (B * 2 ^ 8) 16)
    by (change (2 ^ 8)%N with 256%N; change (2 ^ 16)%N with 65536%N; lia).
  replace (A * 2 ^ 16 + B * 2 ^ 8)%N with ((A * 256 + B) * 2 ^ 8)%N
    by (change (2 ^ 8)%N with 256%N; change (2 ^ 16)%N with 65536%N; lia).
  rewrite lor_mul_add by (change (2 ^ 8)%N with 256%N; lia).
  change (2 ^ 8)%N with 256%N. lia.
Qed.

(** The four 6-bit digits of a group, and the bytes read back from them. *)
Lemma group_digits (A B C n : N) :
  (A < 256 -> B < 256 -> C < 256 -> n = A * 65536 + B * 256 + C ->
   let i0 := N.shiftr n 18 in
   let i1 := N.land (N.shiftr n 12) 63 in
   let i2 := N.land (N.shiftr n 6) 63 in
   let i3 := N.land n 63 in
   (i0 < 64 /\ i1 < 64 /\ i2 < 64 /\ i3 < 64) /\
   i0 * 4 + i1 / 16 = A /\
   (i1 mod 16) * 16 + i2 / 4 = B /\
   (i2 mod 4) * 64 + i3 = C)%N.
Proof.
  intros HA HB HC Hn i0 i1 i2 i3. subst i0 i1 i2 i3.
  change 63%N with (N.ones 6). rewrite !N.land_ones, !N.shiftr_div_pow2.
  change (2 ^ 18)%N with 262144%N. change (2 ^ 12)%N with 4096%N.
  change (2 ^ 6)%N with 64%N.
  repeat split; zify; Z.to_euclidean_division_equations; lia.
Qed.

Lemma b64_index_char (i : N) :
  (i < 64)%N ->
  b64_index (b64_char i) = i /\ Ascii.eqb (b64_char i) "=" = false.
Proof.
  intros H.
  assert (C : forallb (fun i => N.eqb (b64_index (b64_char i)) i
                                && negb (Ascii.eqb (b64_char i) "="))
                (map N.of_nat (seq 0 64)) = true)
    by (vm_compute; reflexivity).
  rewrite forallb_forall in C. specialize (C i).
  assert (I : In i (map N.of_nat (seq 0 64))).
  { apply in_map_iff. exists (N.to_nat i).
    split; [apply N2Nat.id | apply in_seq; lia]. }
  apply C, andb_prop in I as [I1 I2].
  apply N.eqb_eq in I1. apply negb_true_iff in I2. now split.
Qed.

Lemma byte_of_to_N (b : byte) : byte_of_N (Byte.to_N b) = b.
Proof. unfold byte_of_N. now rewrite Byte.of_to_N. Qed.

Lemma byte_bound (b : byte) : (Byte.to_N b < 256)%N.
Proof. pose proof (Byte.to_N_bounded b). lia. Qed.

(** Decoding undoes encoding. *)
Lemma b64decode_b64encode (bs : list byte) : b64decode (b64encode bs) = bs.
Proof.
  induction bs as [| a | a b | a b c rest IH] using list_ind3.
  - reflexivity.
  - cbn [b64encode]. cbv zeta.
    pose proof (group_value (Byte.to_N a) 0 0 (byte_bound a) eq_refl eq_refl)
      as V.
    rewrite N.lor_0_r in V. change (N.shiftl 0 8) with 0%N in V.
    rewrite N.lor_0_r in V.
    rewrite V.
    destruct (group_digits (Byte.to_N a) 0 0 _ (byte_bound a) eq_refl eq_refl
                eq_refl) as ((L0 & L1 & _) & EA & _).
    cbv zeta in *.
    destruct (b64_index_char _ L0) as [I0 _].
    destruct (b64_index_char _ L1) as [I1 _].
    cbn [b64decode]. rewrite I0, I1.
    change (Ascii.eqb "=" "=") with true. cbv iota.
    rewrite EA. now rewrite byte_of_to_N.
  - cbn [b64encode]. cbv zeta.
    pose proof (group_value (Byte.to_N a) (Byte.to_N b) 0 (byte_bound a)
                  (byte_bound b) eq_refl) as V.
    rewrite N.lor_0_r in V. rewrite V.
    destruct (group_digits (Byte.to_N a) (Byte.to_N b) 0 _ (byte_bound a)
                (byte_bound b) eq_refl eq_refl)
      as ((L0 & L1 & L2 & _) & EA & EB & _).
    cbv zeta in *.
    destruct (b64_index_char _ L0) as [I0 _].
    destruct (b64_index_char _ L1) as [I1 _].
    destruct (b64_index_char _ L2) as [I2 N2].
    cbn [b64decode]. rewrite I0, I1, I2, N2.
    change (Ascii.eqb "=" "=") with true. cbv iota.
    rewrite EA, EB. now rewrite !byte_of_to_N.
  - cbn [b64encode]. cbv zeta.
    rewrite (group_value (Byte.to_N a) (Byte.to_N b) (Byte.to_N c)
               (byte_bound a) (byte_bound b) (byte_bound c)).
    destruct (group_digits (Byte.to_N a) (Byte.to_N b) (Byte.to_N c) _
                (byte_bound a) (byte_bound b) (byte_bound c) eq_refl)
      as ((L0 & L1 & L2 & L3) & EA & EB & EC).
    cbv zeta in *.
    destruct (b64_index_char _ L0) as [I0 _].
    destruct (b64_index_char _ L1) as [I1 _].
    destruct (b64_index_char _ L2) as [I2 N2].
    destruct (b64_index_char _ L3) as [I3 N3].
    cbn [b64decode]. rewrite I0, I1, I2, I3, N2, N3.
    rewrite EA, EB, EC, IH. now rewrite !byte_of_to_N.
Qed.

(** X20: the encoding is faithful: two byte strings have the same base64
    text only if they are equal, so uploads with different contents never
    share a data URL payload. *)
Theorem b64encode_injective (bs bs' : list byte) :
  b64encode bs = b64encode bs' <-> bs = bs'.
Proof.
  split; [|now intros ->]. intros Heq.
  rewrite <- (b64decode_b64encode bs), Heq. apply b64decode_b64encode.
Qed.

(** * Further properties of the handlers *)

(** The three ways the proxy can go. *)
Lemma excel_proxy_run (requests_post : Requests) (content : string) :
  generate_excel_proxy requests_post content
  = match requests_post excel_url content with
    | PostRaises msg =>
        ([EvPost excel_url content;
          EvLogError ("Error generating Excel: " ++ msg)],
         inl (HTTPException 500 "Failed to generate Excel file"))
    | PostReturns status_code response_content =>
        if Z.eqb status_code 200
        then ([EvPost excel_url content],
              inr {| body := BytesBody response_content;
                     media_type :=
                       "application/vnd.openxmlformats-officedocument.spreadsheetml.sheet";
                     headers :=
                       [("Content-Disposition",
                         "attachment; filename=test_cases.xlsx")] |})
        else ([EvPost excel_url content;
               EvLogError ("Error generating Excel: " ++ str_int status_code
                           ++ ": Failed to generate Excel")],
              inl (HTTPException 500 "Failed to generate Excel file"))
    end.
Proof.
  unfold generate_excel_proxy.
  destruct (requests_post excel_url content) as [msg|status_code bytes];
    [reflexivity|].
  destruct (Z.eqb status_code 200); reflexivity.
Qed.

(** X21: whenever the proxy fails, whatever went wrong upstream (transport
    error or any status), the client gets status 500 with the fixed detail
    [Failed to generate Excel file]: neither the upstream status, nor its
    body, nor the text of the exception reaches the client; they go to the
    log only, in exactly one line. *)
Theorem excel_proxy_fails_only_with_500 (requests_post : Requests)
    (content : string) (e : Exn)
    (Hfail : outcome (generate_excel_proxy requests_post content) = inl e) :
  e = HTTPException 500 "Failed to generate Excel file" /\
  length (logged (trace (generate_excel_proxy requests_post content))) = 1.
Proof.
  revert Hfail. rewrite excel_proxy_run.
  destruct (requests_post excel_url content) as [msg|status_code bytes].
  - intros [= <-]. now split.
  - destruct (Z.eqb status_code 200); [discriminate|].
    intros [= <-]. now split.
Qed.

Lemma excel_proxy_fails_only_with_500_witness :
  HTTPException 500 "Failed to generate Excel file"
  = HTTPException 500 "Failed to generate Excel file" /\
  length (logged (trace (generate_excel_proxy
                           (fun _ _ => PostRaises "connection refused")
                           "TC001"))) = 1.
Proof.
  apply (excel_proxy_fails_only_with_500
           (fun _ _ => PostRaises "connection refused") "TC001").
  reflexivity.
Defined.

(** X22: the proxy posts exactly once, to the fixed URL, the content it was
    given, unchanged; and it returns a response exactly when the upstream
    status is 200. *)
Theorem excel_proxy_posts_once_and_needs_200 (requests_post : Requests)
    (content : string) :
  let run := generate_excel_proxy requests_post content in
  posts (trace run) = [(excel_url, content)] /\
  ((exists response, outcome run = inr response) <->
   (exists response_content,
       requests_post excel_url content = PostReturns 200 response_content)).
Proof.
  intros run. subst run. rewrite excel_proxy_run.
  destruct (requests_post excel_url content) as [msg|status_code bytes].
  - split; [reflexivity|]. split; intros [x H]; discriminate H.
  - destruct (Z.eqb_spec status_code 200) as [->|N].
    + split; [reflexivity|]. split; intros _; eexists; reflexivity.
    + split; [reflexivity|]. split; intros [x H]; [discriminate H|].
      injection H as H _. now elim N.
Qed.

(** X23: on an upstream status 200 the response carries the upstream bytes
    unchanged, as a spreadsheet attachment named [test_cases.xlsx], and
    nothing is logged. *)
Theorem excel_proxy_relays_the_bytes (requests_post : Requests)
    (content : string) (response_content : list byte)
    (H200 : requests_post excel_url content = PostReturns 200 response_content) :
  let run := generate_excel_proxy requests_post content in
  outcome run
  = inr {| body := BytesBody response_content;
           media_type :=
             "application/vnd.openxmlformats-officedocument.spreadsheetml.sheet";
           headers :=
             [("Content-Disposition",
               "attachment; filename=test_cases.xlsx")] |} /\
  logged (trace run) = [].
Proof.
  intros run. subst run. rewrite excel_proxy_run, H200. now split.
Qed.

Lemma excel_proxy_relays_the_bytes_witness :
  exists response,
    outcome (generate_excel_proxy (fun _ _ => PostReturns 200 [x50; x4b])
               "TC001") = inr response /\
    body response = BytesBody [x50; x4b].
Proof.
  eexists. split.
  - exact (proj1 (excel_proxy_relays_the_bytes
                    (fun _ _ => PostReturns 200 [x50; x4b]) "TC001"
                    [x50; x4b] eq_refl)).
  - reflexivity.
Defined.

(** X24: the generation handler itself does nothing observable: it reads no
    file, logs nothing and does not call the model.  It raises only for an
    empty upload list; otherwise it returns the event stream whose body is
    the generator, still to be run. *)
Theorem create_test_caases_defers_the_work (OPENAI_API_KEY : option string)
    (client : Client) (images : list UploadFile)
    (language_mode : LanguageMode) (additional_info : option string) :
  let run := create_test_caases OPENAI_API_KEY client images language_mode
               additional_info in
  trace run = [] /\
  ((exists e, outcome run = inl e) <-> images = []) /\
  (forall response,
      outcome run = inr response ->
      media_type response = "text/event-stream" /\
      body response
      = GeneratorBody (process_request OPENAI_API_KEY client images
                         language_mode additional_info)).
Proof.
  intros run. subst run. destruct images as [|image rest].
  - split; [reflexivity|]. split; [|discriminate].
    split; [reflexivity | intros _; now eexists].
  - split; [reflexivity|]. split.
    + split; [intros [e H]; discriminate H | discriminate].
    + intros response [= <-]. now split.
Qed.

(** X25: therefore a bad image in a non-empty batch does not make the
    handler fail: the handler returns the event stream, and the status 400
    is raised only when the body is run, before any frame. *)
Theorem image_error_surfaces_inside_the_stream
    (OPENAI_API_KEY : option string) (client : Client)
    (pre post : list UploadFile) (bad : UploadFile)
    (language_mode : LanguageMode) (additional_info : option string)
    (Hkey : truthy_opt OPENAI_API_KEY = true)
    (Hpre : forallb encodable pre = true)
    (Hbad : encodable bad = false) :
  exists response generator,
    create_test_caases OPENAI_API_KEY client (pre ++ bad :: post)
      language_mode additional_info = ([], inr response) /\
    media_type response = "text/event-stream" /\
    body response = GeneratorBody generator /\
    outcome generator
    = inl (HTTPException 400
             ("Error processing image: " ++ round_error bad)) /\
    frames (trace generator) = [].
Proof.
  exists {| body := GeneratorBody
                      (process_request OPENAI_API_KEY client
                         (pre ++ bad :: post) language_mode additional_info);
            media_type := "text/event-stream"; headers := [] |}.
  eexists. split; [|split; [reflexivity|split; [reflexivity|]]].
  - destruct pre; reflexivity.
  - rewrite (process_request_phases _ _ _ _ _ Hkey), outcome_bind, trace_bind.
    destruct (encode_images_quiet (pre ++ bad :: post) []) as [_ Hf].
    destruct (encode_images_prefix pre (bad :: post) [] Hpre) as (parts & E).
    revert Hf. rewrite E. clear E. cbn [app encode_images].
    rewrite outcome_bind, trace_bind.
    pose proof (image_round_outcome bad) as Ho. rewrite Hbad in Ho.
    destruct Ho as [Ho _]. rewrite Ho. cbn [trace outcome fst snd].
    intros Hf. now split.
Qed.

Lemma image_error_surfaces_inside_the_stream_witness :
  exists response generator,
    create_test_caases (Some "sk-test") sample_client
      [sample_png; nameless_upload] GHERKIN None = ([], inr response) /\
    media_type response = "text/event-stream" /\
    body response = GeneratorBody generator /\
    outcome generator
    = inl (HTTPException 400
             "Error processing image: 'NoneType' object has no attribute 'split'") /\
    frames (trace generator) = [].
Proof.
  exact (image_error_surfaces_inside_the_stream (Some "sk-test") sample_client
           [sample_png] [] nameless_upload GHERKIN None
           eq_refl eq_refl eq_refl).
Defined.

(** * The class [ResponseStream] *)

Lemma take_length (s : string) : take (String.length s) s = s.
Proof. induction s as [|c s IH]; simpl; [reflexivity | now rewrite IH]. Qed.

Lemma drop_beyond (n : nat) (s : string) :
  String.length s <= n -> drop n s = EmptyString.
Proof.
  revert n; induction s as [|c s IH]; intros [|n]; simpl; intros H;
    try reflexivity; [lia|]. apply IH. lia.
Qed.

(** With the position at the end of the text, [write] appends. *)
Lemma StringIO_write_at_end (b : StringIO.t) (s : string) :
  StringIO.pos b = String.length (StringIO.value b) ->
  StringIO.write b s
  = {| StringIO.value := StringIO.value b ++ s;
       StringIO.pos := String.length (StringIO.value b ++ s) |}.
Proof.
  intros H. unfold StringIO.write. rewrite H, Nat.sub_diag.
  cbn [nuls]. rewrite append_empty_r, take_length, length_append.
  rewrite drop_beyond by lia. now rewrite append_empty_r.
Qed.

(** The position of the buffer of a [ResponseStream] stays at the end of
    its text under [write] and [read], so every write appends. *)
Lemma after_calls_appends (self : ResponseStream.t) (calls : list Call) :
  StringIO.pos (ResponseStream.buffer self)
  = String.length (StringIO.value (ResponseStream.buffer self)) ->
  let self' := after_calls self calls in
  StringIO.value (ResponseStream.buffer self')
  = StringIO.value (ResponseStream.buffer self) ++ written calls /\
  StringIO.pos (ResponseStream.buffer self')
  = String.length (StringIO.value (ResponseStream.buffer self')) /\
  ResponseStream.content_id self' = ResponseStream.content_id self.
Proof.
  revert self. induction calls as [|[content|] rest IH]; intros self H.
  - cbn. now rewrite append_empty_r.
  - cbn [after_calls written].
    destruct (IH (ResponseStream.write self content)) as (V & P & I).
    { unfold ResponseStream.write. cbn [ResponseStream.buffer].
      now rewrite (StringIO_write_at_end _ _ H). }
    cbv zeta. split; [|split; [exact P | now rewrite I]].
    rewrite V. unfold ResponseStream.write. cbn [ResponseStream.buffer].
    rewrite (StringIO_write_at_end _ _ H). cbn [StringIO.value].
    apply append_assoc.
  - cbn [after_calls written].
    destruct (IH (snd (ResponseStream.read self))) as (V & P & I).
    { cbn. lia. }
    cbv zeta. split; [|split; [exact P | now rewrite I]].
    now rewrite V.
Qed.

(** X26: whatever sequence of [write] and [read] calls a fresh stream
    receives, a [read] returns everything that was written, in the order of
    the writes, from the first character: reads in between do not make later
    writes overwrite or lose text.  The identifier never changes. *)
Theorem response_stream_read_returns_all_writes (uuid4 : string)
    (calls : list Call) :
  let self := after_calls (ResponseStream.init uuid4) calls in
  fst (ResponseStream.read self) = written calls /\
  StringIO.getvalue (ResponseStream.buffer self) = written calls /\
  ResponseStream.content_id self = uuid4.
Proof.
  destruct (after_calls_appends (ResponseStream.init uuid4) calls eq_refl)
    as (V & _ & I).
  cbv zeta in *. cbn [ResponseStream.init ResponseStream.buffer
                        ResponseStream.content_id StringIO.new StringIO.value
                        append] in V, I.
  split; [|split; [exact V | exact I]].
  unfold ResponseStream.read, StringIO.read, StringIO.seek.
  cbn [fst StringIO.pos StringIO.value drop]. exact V.
Qed.

Lemma yield_lines_run (lines : list string) :
  ResponseStream.yield_lines lines
  = (map (fun text => EvYield (data_frame text)) lines, inr tt).
Proof.
  induction lines as [|line rest IH]; [reflexivity|].
  cbn [ResponseStream.yield_lines]. now rewrite IH.
Qed.

Lemma splitlines_single_lines (s : string) :
  forallb single_line (splitlines s) = true.
Proof.
  assert (H : forall n s, String.length s <= n ->
                          forallb single_line (splitlines s) = true).
  { clear s. induction n as [|n IH]; intros [|c s] L; try reflexivity;
      [simpl in L; lia|].
    simpl in L. cbn [splitlines].
    destruct (is_linebreak c) eqn:B.
    - cbn [forallb]. change (single_line "") with true. cbn [andb].
      destruct s as [|d s']; [reflexivity|].
      destruct (is_CR c && is_LF d); apply IH; simpl in *; lia.
    - pose proof (IH s ltac:(lia)) as Hs.
      destruct (splitlines s) as [|h t].
      + cbn. unfold single_line. cbn. now rewrite B.
      + cbn [forallb] in *. apply andb_prop in Hs as [Hh Ht].
        rewrite Ht, andb_true_r. unfold single_line in *.
        cbn [list_ascii_of_string forallb]. now rewrite B, Hh. }
  now apply (H (String.length s)).
Qed.

(** X27: iterating a [ResponseStream] never raises and yields one frame per
    line of its text, in order, then [DONE] as the last frame; no payload
    contains a line break, so every frame is a single event. *)
Theorem response_stream_iter_frames (self : ResponseStream.t) :
  let lines := splitlines (StringIO.getvalue (ResponseStream.buffer self)) in
  outcome (ResponseStream.iter self) = inr tt /\
  frames (trace (ResponseStream.iter self))
  = (map data_frame lines ++ [DONE])%list /\
  forallb single_line lines = true.
Proof.
  intros lines. unfold ResponseStream.iter. fold lines.
  rewrite yield_lines_run. cbn [bind emit outcome trace fst snd].
  split; [reflexivity|]. split; [|apply splitlines_single_lines].
  now rewrite frames_app, frames_yields.
Qed.

(** A line written with its terminator comes back as that line. *)
Lemma splitlines_line (line rest : string) :
  single_line line = true ->
  splitlines (line ++ nl ++ rest) = line :: splitlines rest.
Proof.
  induction line as [|c line IH]; intros H.
  - destruct rest; reflexivity.
  - unfold single_line in H. cbn [list_ascii_of_string forallb] in H.
    apply andb_prop in H as [Hc Hl]. apply negb_true_iff in Hc.
    change (String c line ++ nl ++ rest)
      with (String c (line ++ nl ++ rest)).
    cbn [splitlines]. rewrite Hc. now rewrite (IH Hl).
Qed.

(** X28: lines written one by one, each followed by a line feed, come out
    of the iteration as one frame each, unchanged and in order, followed by
    [DONE]; this holds for lines that contain no line break themselves. *)
Theorem response_stream_lines_round_trip (uuid4 : string)
    (lines : list string)
    (Hlines : forallb single_line lines = true) :
  let self := after_calls (ResponseStream.init uuid4)
                (map (fun line => CallWrite (line ++ nl)) lines) in
  frames (trace (ResponseStream.iter self))
  = (map data_frame lines ++ [DONE])%list.
Proof.
  intros self.
  destruct (after_calls_appends (ResponseStream.init uuid4)
              (map (fun line => CallWrite (line ++ nl)) lines) eq_refl)
    as (V & _ & _).
  fold self in V. cbn [ResponseStream.init ResponseStream.buffer StringIO.new
                         StringIO.value append] in V.
  destruct (response_stream_iter_frames self) as (_ & -> & _).
  unfold StringIO.getvalue. rewrite V. f_equal. f_equal.
  clear V self. induction lines as [|line rest IH]; [reflexivity|].
  cbn [forallb] in Hlines. apply andb_prop in Hlines as [Hl Hr].
  cbn [map written]. rewrite append_assoc, (splitlines_line _ _ Hl).
  now rewrite (IH Hr).
Qed.

Lemma response_stream_lines_round_trip_witness :
  frames (trace (ResponseStream.iter
                   (after_calls (ResponseStream.init "0000")
                      [CallWrite ("Feature: Login" ++ nl);
                       CallWrite ("" ++ nl);
                       CallWrite ("  Scenario: ok" ++ nl)])))
  = [data_frame "Feature: Login"; data_frame ""; data_frame "  Scenario: ok";
     DONE].
Proof.
  exact (response_stream_lines_round_trip "0000"
           ["Feature: Login"; ""; "  Scenario: ok"] eq_refl).
Defined.

(** * The API key dependency *)

(** [verify_api_key] checks presence only: every non-empty key is returned
    as it came. *)
Lemma verify_api_key_accepts_any_key (key : string) :
  key <> EmptyString -> verify_api_key (Some key) = ([], inr (Some key)).
Proof. destruct key; [congruence | reflexivity]. Qed.
